(** * BankBot: message routing and conversation state

    A shallow embedding of [bankbot_app.py]: the keyword classifier, the
    clean-up of the model's completion, the conversation store kept in
    Streamlit's [st.session_state], and the [send_message] turn.

    Conventions of the embedding.
    - A Python [str] is a [string]; one [ascii] stands for one code point in
      U+0000..U+00FF.  On that range [lower], [strip], [in], [replace] and
      slicing below are Python's.  The two reply templates hold characters
      outside that range; they are kept as the UTF-8 bytes of the source
      literal and are never inspected.
    - A Python [list] that is reachable through more than one name (the
      transcript of the active chat, the transcript stored in an archived
      chat) lives in a store of list objects and is named by its location.
    - The wall clock, [uuid.uuid4] and the HTTP endpoint are oracles. *)

From stdpp Require Import base list strings gmap.
From Stdlib Require Import NArith Ascii.

Local Open Scope N_scope.

(** ** Python string primitives *)
Module PyStr.

Definition nl : string := String (ascii_of_N 10) "".

(** [str.isspace] on one code point below 256. *)
Definition isspace (c : ascii) : bool :=
  let n := N_of_ascii c in
  ((9 <=? n) && (n <=? 13)) || ((28 <=? n) && (n <=? 32))
  || (n =? 133) || (n =? 160).

(** [str.lower] on one code point below 256: A-Z, and the Latin-1 capitals
    U+00C0..U+00DE except the multiplication sign U+00D7. *)
Definition lower_char (c : ascii) : ascii :=
  let n := N_of_ascii c in
  if ((65 <=? n) && (n <=? 90))
     || ((192 <=? n) && (n <=? 222) && negb (n =? 215))
  then ascii_of_N (n + 32) else c.

Fixpoint lower (s : string) : string :=
  match s with
  | "" => ""
  | String c t => String (lower_char c) (lower t)
  end.

(** [s.startswith(p)] *)
Fixpoint startswith (p s : string) : bool :=
  match p, s with
  | "", _ => true
  | String _ _, "" => false
  | String a p', String b s' => if decide (a = b) then startswith p' s' else false
  end.

(** [needle in hay] *)
Fixpoint contains (needle hay : string) : bool :=
  startswith needle hay
  || match hay with
     | "" => false
     | String _ t => contains needle t
     end.

(** [s[:n]] for [n >= 0] *)
Fixpoint take (n : nat) (s : string) : string :=
  match n, s with
  | S k, String c t => String c (take k t)
  | _, _ => ""
  end.

Fixpoint lstrip (s : string) : string :=
  match s with
  | "" => ""
  | String c t => if isspace c then lstrip t else s
  end.

Fixpoint rstrip (s : string) : string :=
  match s with
  | "" => ""
  | String c t =>
      match rstrip t with
      | "" => if isspace c then "" else String c ""
      | r => String c r
      end
  end.

(** [s.strip()] *)
Definition strip (s : string) : string := rstrip (lstrip s).

(** [s.replace(old, new)] for a non-empty [old]: a scan from the left; at
    an occurrence of [old] the scan emits [new] and resumes behind the
    occurrence ([skip] counts the characters of it still to pass). *)
Fixpoint replace_scan (old new : string) (skip : nat) (s : string) : string :=
  match s with
  | "" => ""
  | String c t =>
      match skip with
      | S k => replace_scan old new k t
      | O =>
          if startswith old s
          then new +:+ replace_scan old new (String.length old - 1) t
          else String c (replace_scan old new 0 t)
      end
  end.

(** With an empty [old], Python puts [new] before every character and at
    the end. *)
Fixpoint intersperse (new s : string) : string :=
  match s with
  | "" => new
  | String c t => new +:+ String c (intersperse new t)
  end.

Definition replace (old new s : string) : string :=
  match old with
  | "" => intersperse new s
  | _ => replace_scan old new 0 s
  end.

End PyStr.

(** ** Data model *)

(** [msg["role"]]: the source writes ["user"] and ["bot"]. *)
Inductive Role := user | bot.

Record Message := { role : Role; content : string; time : string }.

(** A list object of the Python heap is named by its location. *)
Definition loc := nat.

(** An entry of [st.session_state.chat_history]; ["messages"] holds a
    reference to a list object. *)
Record Chat := { id : string; title : string; messages : loc }.

(** What a run can raise: [requests.post] (connection, timeout),
    [response.json()] (body is not JSON), a method looked up on a value
    that lacks it, and Streamlit when a second element is drawn under a key
    the run has used already. *)
Inductive exn :=
| ConnectionError | Timeout | JSONDecodeError | AttributeError
| DuplicateElementKey.

(** The value found under a key of the decoded body: a string, or anything
    else JSON can hold (null, number, boolean, array, object). *)
Inductive jvalue := JString (s : string) | JOther.

(** The decoded body of the HTTP response. *)
Inductive body :=
| NotJson                                   (* [response.json()] raises *)
| JsonObject (response : option jvalue)     (* a dict, with or without ["response"] *)
| JsonOther.                                (* valid JSON, not an object *)

Inductive http_result := PostRaises (e : exn) | Replied (b : body).

(** The oracles of a run. *)
Record Env := {
  now : nat -> string;                      (* the n-th reading of the clock *)
  uuid4 : nat -> string;                    (* the n-th identifier drawn *)
  http_post : nat -> string -> http_result  (* the n-th request, by its prompt *)
}.

(** [st.session_state], the list objects it refers to, and the record of the
    run's interaction with the oracles. *)
Record World := {
  chat_history : list Chat;
  current_chat : loc;
  chat_id : string;
  user_input : string;
  heap : gmap loc (list Message);
  ticks : nat;                              (* clock readings so far *)
  drawn : nat;                              (* identifiers drawn so far *)
  posted : list string                      (* prompts posted so far, oldest first *)
}.

Definition set_chat_history (h : list Chat) (w : World) : World :=
  {| chat_history := h; current_chat := current_chat w; chat_id := chat_id w;
     user_input := user_input w; heap := heap w; ticks := ticks w;
     drawn := drawn w; posted := posted w |}.
Definition set_current_chat (l : loc) (w : World) : World :=
  {| chat_history := chat_history w; current_chat := l; chat_id := chat_id w;
     user_input := user_input w; heap := heap w; ticks := ticks w;
     drawn := drawn w; posted := posted w |}.
Definition set_chat_id (i : string) (w : World) : World :=
  {| chat_history := chat_history w; current_chat := current_chat w; chat_id := i;
     user_input := user_input w; heap := heap w; ticks := ticks w;
     drawn := drawn w; posted := posted w |}.
Definition set_user_input (s : string) (w : World) : World :=
  {| chat_history := chat_history w; current_chat := current_chat w;
     chat_id := chat_id w; user_input := s; heap := heap w; ticks := ticks w;
     drawn := drawn w; posted := posted w |}.
Definition set_heap (h : gmap loc (list Message)) (w : World) : World :=
  {| chat_history := chat_history w; current_chat := current_chat w;
     chat_id := chat_id w; user_input := user_input w; heap := h;
     ticks := ticks w; drawn := drawn w; posted := posted w |}.
Definition set_ticks (n : nat) (w : World) : World :=
  {| chat_history := chat_history w; current_chat := current_chat w;
     chat_id := chat_id w; user_input := user_input w; heap := heap w;
     ticks := n; drawn := drawn w; posted := posted w |}.
Definition set_drawn (n : nat) (w : World) : World :=
  {| chat_history := chat_history w; current_chat := current_chat w;
     chat_id := chat_id w; user_input := user_input w; heap := heap w;
     ticks := ticks w; drawn := n; posted := posted w |}.
Definition set_posted (p : list string) (w : World) : World :=
  {| chat_history := chat_history w; current_chat := current_chat w;
     chat_id := chat_id w; user_input := user_input w; heap := heap w;
     ticks := ticks w; drawn := drawn w; posted := p |}.

(** The transcript a reference denotes. *)
Definition transcript (w : World) (l : loc) : list Message :=
  default [] (heap w !! l).

(** ** Computations: state, with exceptions that keep the state reached *)

Inductive outcome (A : Type) :=
| Returned (a : A) (w : World)
| Raised (e : exn) (w : World).
Arguments Returned {A} a w.
Arguments Raised {A} e w.

Definition M (A : Type) : Type := World -> outcome A.

Definition ret {A} (a : A) : M A := fun w => Returned a w.
Definition bind {A B} (m : M A) (k : A -> M B) : M B :=
  fun w => match m w with
           | Returned a w' => k a w'
           | Raised e w' => Raised e w'
           end.
Definition raise {A} (e : exn) : M A := fun w => Raised e w.
Definition gets {A} (f : World -> A) : M A := fun w => Returned (f w) w.
Definition modify (f : World -> World) : M unit := fun w => Returned () (f w).

Declare Scope run_scope.
Delimit Scope run_scope with run.
Notation "x <- m ;; k" := (bind m (fun x => k))
  (at level 100, m at next level, right associativity) : run_scope.
Notation "m ;; k" := (bind m (fun _ => k))
  (at level 100, right associativity) : run_scope.
Bind Scope run_scope with M.
Local Open Scope run_scope.

(** The state an outcome ends in, and whether it is a normal return. *)
Definition final {A} (o : outcome A) : World :=
  match o with Returned _ w => w | Raised _ w => w end.
Definition returned {A} (o : outcome A) : bool :=
  match o with Returned _ _ => true | Raised _ _ => false end.

(** ** The program *)
Module BankBot.
Import PyStr.

Section Run.
Variable E : Env.

(** [current_time()] *)
Definition current_time : M string :=
  fun w => Returned (now E (ticks w)) (set_ticks (S (ticks w)) w).

(** [str(uuid.uuid4())] *)
Definition fresh_uuid : M string :=
  fun w => Returned (uuid4 E (drawn w)) (set_drawn (S (drawn w)) w).

(** A new list object holding [xs]: a list display, or [list.copy()]. *)
Definition new_list (xs : list Message) : M loc :=
  fun w => let l := fresh (dom (heap w)) in
           Returned l (set_heap (<[l := xs]> (heap w)) w).

(** [l.append(m)], in place. *)
Definition list_append (l : loc) (m : Message) : M unit :=
  modify (fun w => set_heap (<[l := transcript w l ++ [m]]> (heap w)) w).

Definition greetings : list string :=
  ["hi"; "hello"; "hey"; "good morning"; "good evening"].

Definition is_greeting (message : string) : bool :=
  existsb (fun word => contains word (lower message)) greetings.

Definition banking_terms : list string :=
  ["account"; "loan"; "emi"; "interest";
   "card"; "atm"; "balance"; "transaction";
   "ifsc"; "branch"; "bank"].

Definition is_banking_related (message : string) : bool :=
  existsb (fun term => contains term (lower message)) banking_terms.

Fixpoint generate_chat_title (messages : list Message) : string :=
  match messages with
  | [] => "New Chat"
  | msg :: rest =>
      match role msg with
      | user => take 40 (content msg)
      | bot => generate_chat_title rest
      end
  end.

Definition reset_chat : M unit :=
  l <- new_list [] ;;
  modify (set_current_chat l) ;;
  u <- fresh_uuid ;;
  modify (set_chat_id u) ;;
  modify (set_user_input "").

Definition save_chat : M unit :=
  cur <- gets current_chat ;;
  msgs <- gets (fun w => transcript w cur) ;;
  match msgs with
  | [] => ret ()
  | _ :: _ =>
      let title := generate_chat_title msgs in
      cid <- gets chat_id ;;
      copy <- new_list msgs ;;
      modify (fun w =>
        set_chat_history
          ({| id := cid; title := title; messages := copy |} :: chat_history w) w)
  end.

(** [requests.post(OLLAMA_API_URL, json=payload, timeout=60)] followed by
    [response.json()]: the request is recorded by its prompt (the other
    fields of the payload are constants). *)
Definition requests_post (prompt : string) : M body :=
  fun w =>
    let w' := set_posted (posted w ++ [prompt]) w in
    match http_post E (length (posted w)) prompt with
    | PostRaises e => Raised e w'
    | Replied NotJson => Raised JSONDecodeError w'
    | Replied b => Returned b w'
    end.

(** [.get("response", "")] on the decoded body. *)
Definition get_response (b : body) : M jvalue :=
  match b with
  | JsonObject (Some v) => ret v
  | JsonObject None => ret (JString "")
  | _ => raise AttributeError
  end.

Definition blocked_phrases : list string :=
  ["You are BankBot"; "Answer only"; "Customer Question"].

(** The safety cleanup: the loop over [blocked_phrases], then [strip()]. *)
Definition cleanup (reply_text : string) : string :=
  strip (fold_left (fun reply_text phrase => replace phrase "" reply_text)
                   blocked_phrases reply_text).

Definition system_prompt : string :=
  "You are BankBot, a polite banking assistant." +:+ nl +:+
  "Answer only banking-related questions." +:+ nl +:+
  "Keep responses short and easy to read." +:+ nl +:+
  "Use bullet points when possible." +:+ nl +:+
  "Do not explain rules or instructions." +:+ nl.

Definition full_prompt (user_question : string) : string :=
  nl +:+ system_prompt +:+ nl +:+
  nl +:+
  "Customer Question:" +:+ nl +:+
  user_question +:+ nl +:+
  nl +:+
  "BankBot Answer:" +:+ nl.

Definition get_ollama_response (user_question : string) : M string :=
  response <- requests_post (full_prompt user_question) ;;
  reply_text <- get_response response ;;
  match reply_text with
  | JString reply_text => ret (cleanup reply_text)
  | JOther => raise AttributeError      (* no [replace] on a non-string *)
  end.

(** The sidebar loop over [chat_history].  [st.button(chat["title"],
    key=chat["id"])] raises when the run has drawn an element under that key
    already ([seen] holds the keys drawn so far); otherwise it draws the
    button and returns [clicked key], whether the button of that key was
    pressed. *)
Fixpoint sidebar_chat_selection (clicked : string -> bool) (seen : list string)
    (chats : list Chat) : M unit :=
  match chats with
  | [] => ret ()
  | chat :: rest =>
      if bool_decide (id chat ∈ seen) then raise DuplicateElementKey
      else
        (if clicked (id chat)
         then modify (set_chat_id (id chat)) ;;
              modify (set_current_chat (messages chat))
         else ret ()) ;;
        sidebar_chat_selection clicked (id chat :: seen) rest
  end.

(** One pass of the sidebar loop in a run of the script; no element drawn
    before the loop carries a key of its own. *)
Definition sidebar_pass (clicked : string -> bool) : M unit :=
  chats <- gets chat_history ;;
  sidebar_chat_selection clicked [] chats.

(** The pass of a run in which the button of key [i] is the one pressed.
    For a key no button is drawn under, this is the pass of a run in which
    no button of the history is pressed. *)
Definition select_chat (i : string) : M unit :=
  sidebar_pass (fun key => bool_decide (key = i)).

Definition greeting_reply : string :=
  "Hello 👋" +:+ nl +:+ nl +:+
  "I’m **BankBot**, your banking assistant." +:+ nl +:+ nl +:+
  "You can ask me about:" +:+ nl +:+
  "• Opening an account" +:+ nl +:+
  "• Loans & EMI" +:+ nl +:+
  "• Cards & ATM services".

Definition off_topic_reply : string :=
  "I’m here to help with **banking-related queries only**." +:+ nl +:+ nl +:+
  "Please ask about:" +:+ nl +:+
  "• Accounts" +:+ nl +:+
  "• Loans" +:+ nl +:+
  "• Cards" +:+ nl +:+
  "• ATM services".

(** The if/elif/else of [send_message] that produces [bot_reply]. *)
Definition bot_reply (user_text : string) : M string :=
  if is_greeting user_text then ret greeting_reply
  else if negb (is_banking_related user_text) then ret off_topic_reply
  else get_ollama_response user_text.

Definition send_message : M unit :=
  user_text <- gets (fun w => strip (user_input w)) ;;
  if decide (user_text = "") then ret () else
  cur <- gets current_chat ;;
  t <- current_time ;;
  list_append cur {| role := user; content := user_text; time := t |} ;;
  reply <- bot_reply user_text ;;
  cur <- gets current_chat ;;
  t <- current_time ;;
  list_append cur {| role := bot; content := reply; time := t |} ;;
  modify (set_user_input "").

End Run.

(** The branch of [send_message] a text takes, under the spec's names. *)
Inductive Classification := Greeting | BankingRelated | OffTopic.

Definition classify (text : string) : Classification :=
  if is_greeting text then Greeting
  else if negb (is_banking_related text) then OffTopic
  else BankingRelated.

(** The state when the script starts: no archive, an empty transcript, a
    fresh identifier, an empty input box. *)
Definition init (E : Env) : World :=
  {| chat_history := []; current_chat := 0%nat; chat_id := uuid4 E 0;
     user_input := ""; heap := {[ 0%nat := [] ]}; ticks := 0; drawn := 1;
     posted := [] |}.

End BankBot.

(** ** The spec's vocabulary, stated without the code's functions *)
Module Spec.
Import PyStr.

(** [needle] occurs in [hay] as a substring. *)
Definition occurs (needle hay : string) : Prop :=
  exists pre post, hay = pre +:+ needle +:+ post.

(** [kw] occurs in [text] up to letter case. *)
Definition occurs_ci (kw text : string) : Prop :=
  exists pre mid post, text = pre +:+ mid +:+ post /\ lower mid = lower kw.

(** [s] without its last character. *)
Fixpoint chop (s : string) : string :=
  match s with
  | "" => ""
  | String c t => match t with "" => "" | _ => String c (chop t) end
  end.

(** [removed old s r]: [r] is [s] with the occurrences of [old] taken out,
    each the leftmost one in what is left of [s] behind the previous one. *)
Inductive removed (old : string) : string -> string -> Prop :=
| removed_none s :
    ~ occurs old s -> removed old s s
| removed_step g rest r :
    ~ occurs old (g +:+ chop old) ->
    removed old rest r ->
    removed old (g +:+ old +:+ rest) (g +:+ r).

(** [subseq r s]: [r] is [s] with some of its characters deleted. *)
Inductive subseq : string -> string -> Prop :=
| subseq_nil : subseq "" ""
| subseq_keep c r s : subseq r s -> subseq (String c r) (String c s)
| subseq_drop c r s : subseq r s -> subseq r (String c s).

Fixpoint all_space (s : string) : Prop :=
  match s with
  | "" => True
  | String c t => isspace c = true /\ all_space t
  end.

Definition space_first (s : string) : Prop :=
  exists c t, s = String c t /\ isspace c = true.
Definition space_last (s : string) : Prop :=
  exists t c, s = t +:+ String c "" /\ isspace c = true.

(** [stripped s r]: [r] is [s] without the white space at its two ends. *)
Definition stripped (s r : string) : Prop :=
  exists l t, s = l +:+ r +:+ t /\ all_space l /\ all_space t
              /\ ~ space_first r /\ ~ space_last r.

End Spec.

(** ** States the operations pass through *)
Module States.
Import PyStr BankBot.

(** The state once the user's message is stored. *)
Definition user_stored (E : Env) (w : World) : World :=
  let m := {| role := user; content := strip (user_input w);
              time := now E (ticks w) |} in
  let w1 := set_ticks (S (ticks w)) w in
  set_heap (<[current_chat w := transcript w (current_chat w) ++ [m]]> (heap w)) w1.

(** The state once the reply is stored and the input box cleared. *)
Definition reply_stored (E : Env) (reply : string) (w : World) : World :=
  let m := {| role := bot; content := reply; time := now E (ticks w) |} in
  let w1 := set_ticks (S (ticks w)) w in
  set_user_input ""
    (set_heap (<[current_chat w := transcript w (current_chat w) ++ [m]]> (heap w)) w1).

(** The state [save_chat] leaves when the transcript is not empty. *)
Definition archived (w : World) : World :=
  let msgs := transcript w (current_chat w) in
  let l := fresh (dom (heap w)) in
  set_chat_history
    ({| id := chat_id w; title := generate_chat_title msgs; messages := l |}
       :: chat_history w)
    (set_heap (<[l := msgs]> (heap w)) w).

(** The state a pass of the sidebar leaves when it selects [chat]. *)
Definition selected (chat : Chat) (w : World) : World :=
  set_current_chat (messages chat) (set_chat_id (id chat) w).

(** The pass draws the button of the entry [c]: no key repeats among the
    entries up to [c], [c] included. *)
Definition button_drawn (chats : list Chat) (c : Chat) : Prop :=
  exists pre post, chats = pre ++ c :: post /\ NoDup (map id (pre ++ [c])).

(** The requests a turn on [text] posts. *)
Definition requests_of (text : string) : list string :=
  match classify text with
  | BankingRelated => [full_prompt text]
  | _ => []
  end.

(** No reference dangles: the active transcript and the transcript of every
    archive entry are list objects of the store. *)
Definition wf (w : World) : Prop :=
  is_Some (heap w !! current_chat w)
  /\ forall c, c ∈ chat_history w -> is_Some (heap w !! messages c).

End States.

(** ** Concrete oracles and states *)
Module Inputs.
Import PyStr BankBot.

Definition digit (n : nat) : string := String (ascii_of_N (48 + N.of_nat n)) "".

(** An endpoint that times out. *)
Definition E_down : Env :=
  {| now := fun n => "10:0" +:+ digit n;
     uuid4 := fun n => "chat-" +:+ digit n;
     http_post := fun _ _ => PostRaises Timeout |}.

(** An endpoint whose model echoes a fragment of the instructions. *)
Definition E_echo : Env :=
  {| now := now E_down;
     uuid4 := uuid4 E_down;
     http_post := fun _ _ =>
       Replied (JsonObject (Some (JString "You are BankBot, your balance is $500"))) |}.

(** An endpoint whose JSON object has no ["response"]. *)
Definition E_nofield : Env :=
  {| now := now E_down;
     uuid4 := uuid4 E_down;
     http_post := fun _ _ => Replied (JsonObject None) |}.

(** The text box holds [s] when the button is pressed. *)
Definition typed (s : string) (w : World) : World := set_user_input s w.

Definition w_start : World := init E_down.
Definition w_balance : World := typed "  my balance " w_start.
(** After one greeting turn. *)
Definition w_hello : World := final (send_message E_echo (typed "Hello" w_start)).
(** Saved, continued by one more turn, and saved again. *)
Definition w_saved : World := final (save_chat w_hello).
Definition w_more : World := final (send_message E_echo (typed "what now" w_saved)).
Definition w_saved_twice : World := final (save_chat w_more).

Definition m_balance : Message :=
  {| role := user; content := "my balance"; time := "10:00" |}.

End Inputs.

(** ** The script as a reaction to events *)
Module Script.
Import PyStr BankBot.

(** What the user can do between two runs of the script: edit the text box
    (Streamlit writes the widget's value to [st.session_state.user_input]),
    or press one of the buttons.  A button of the history can be pressed
    only if the loop has drawn it; under a key with no drawn button,
    [ClickChat] is a run in which nothing of the history is pressed. *)
Inductive Event :=
| TypeText (s : string)
| ClickSend                           (* [on_click=send_message] *)
| ClickNewChat                        (* [reset_chat()] *)
| ClickSaveChat                       (* [save_chat()] *)
| ClickChat (key : string).           (* a button of the history list *)

(** The pass of a run in which no button of the history is pressed. *)
Definition no_click : string -> bool := fun _ => false.

(** One run of the script: the callback or the sidebar button of the
    event, then the loop over the history. *)
Definition handle (E : Env) (ev : Event) : M unit :=
  match ev with
  | TypeText s => modify (set_user_input s) ;; sidebar_pass no_click
  | ClickSend => send_message E ;; sidebar_pass no_click
  | ClickNewChat => reset_chat E ;; sidebar_pass no_click
  | ClickSaveChat => save_chat ;; sidebar_pass no_click
  | ClickChat key => select_chat key
  end.

(** A raise ends the run of the script; [st.session_state] keeps what was
    written before it. *)
Definition step (E : Env) (w : World) (ev : Event) : World :=
  final (handle E ev w).

Definition run (E : Env) (evs : list Event) (w : World) : World :=
  fold_left (step E) evs w.

(** A user's message as a turn stores it: a text that is not empty and has
    no white space at its ends. *)
Definition user_text_ok (m : Message) : Prop :=
  content m <> "" /\ strip (content m) = content m.

(** The shape of a transcript: a user's message is as a turn stores it, and
    a bot's message comes right behind a user's ([after_user] tells whether
    the message before the list is a user's). *)
Fixpoint shaped (after_user : bool) (msgs : list Message) : Prop :=
  match msgs with
  | [] => True
  | m :: rest =>
      match role m with
      | user => user_text_ok m /\ shaped true rest
      | bot => after_user = true /\ shaped false rest
      end
  end.

(** The title of an archive entry is read off the first message of the
    transcript the entry refers to, which is a user's. *)
Definition titled (w : World) (c : Chat) : Prop :=
  exists m rest,
    transcript w (messages c) = m :: rest
    /\ role m = user
    /\ title c = take 40 (content m).

(** Every identifier in use was drawn from the oracle. *)
Definition is_drawn (E : Env) (w : World) (i : string) : Prop :=
  exists k, (k < drawn w)%nat /\ i = uuid4 E k.

(** Every list object of the store has the shape of a transcript. *)
Definition store_shaped (w : World) : Prop :=
  map_Forall (fun _ msgs => shaped false msgs) (heap w).

Definition archive_titled (w : World) : Prop :=
  Forall (titled w) (chat_history w).

Definition ids_drawn (E : Env) (w : World) : Prop :=
  is_drawn E w (chat_id w)
  /\ Forall (fun c => is_drawn E w (id c)) (chat_history w).

(** What the runs of the script keep. *)
Definition inv (E : Env) (w : World) : Prop :=
  States.wf w /\ store_shaped w /\ archive_titled w /\ ids_drawn E w.

Definition is_save (ev : Event) : bool :=
  match ev with ClickSaveChat => true | _ => false end.

End Script.

(** ** More concrete oracles and runs *)
Module MoreInputs.
Import PyStr BankBot Script Inputs.

(** [tally n] is [n] strokes: an identifier per number. *)
Fixpoint tally (n : nat) : string :=
  match n with
  | O => ""
  | S k => String "i" (tally k)
  end.

(** An endpoint that times out, with identifiers that never repeat. *)
Definition E_tally : Env :=
  {| now := now E_down;
     uuid4 := fun n => "chat-" +:+ tally n;
     http_post := http_post E_down |}.

(** Greet, save, ask about a loan while the endpoint is down. *)
Definition evs_session : list Event :=
  [TypeText "Hello"; ClickSend; ClickSaveChat; TypeText " a loan? "; ClickSend].

End MoreInputs.

(** ** Facts about the string primitives *)
Module PyStrFacts.
Import PyStr Spec.

Example strip_ex : strip ("  a b " +:+ nl) = "a b".
Proof. reflexivity. Qed.
Example replace_ex : replace "ab" "" "xabyababz" = "xyz".
Proof. reflexivity. Qed.
Example replace_ex2 : replace "aa" "b" "aaaaa" = "bba".
Proof. reflexivity. Qed.
Example lower_ex : lower "Hi THERE z@[" = "hi there z@[".
Proof. reflexivity. Qed.
Example contains_ex : contains "hi" "this" = true.
Proof. reflexivity. Qed.

Lemma append_cons c s t : String c s +:+ t = String c (s +:+ t).
Proof. reflexivity. Qed.

Lemma append_nil_r s : s +:+ "" = s.
Proof. induction s as [|c s IH]; [done|]. by rewrite append_cons, IH. Qed.

Lemma append_assoc a b c : (a +:+ b) +:+ c = a +:+ b +:+ c.
Proof. induction a as [|x a IH]; [done|]. by rewrite !append_cons, IH. Qed.

Lemma length_append a b :
  String.length (a +:+ b) = (String.length a + String.length b)%nat.
Proof. induction a as [|x a IH]; [done|]. rewrite append_cons. simpl. by rewrite IH. Qed.

Lemma append_eq_nil a b : a +:+ b = "" -> a = "" /\ b = "".
Proof. destruct a; [done|]. by rewrite append_cons. Qed.

(** *** [startswith] and [in] *)

Lemma startswith_occurs p s :
  startswith p s = true <-> exists t, s = p +:+ t.
Proof.
  revert s. induction p as [|a p IH]; intros s.
  - split; [by exists s|by destruct s].
  - destruct s as [|b s]; simpl.
    + split; [done|]. intros [t Ht]. by rewrite append_cons in Ht.
    + case_decide as Hab.
      * subst b. rewrite IH. split.
        -- intros [t ->]. by exists t.
        -- intros [t Ht]. rewrite append_cons in Ht. exists t. congruence.
      * split; [done|]. intros [t Ht]. rewrite append_cons in Ht. congruence.
Qed.

Lemma contains_occurs needle hay :
  contains needle hay = true <-> occurs needle hay.
Proof.
  induction hay as [|c hay IH].
  - simpl. rewrite orb_false_r, startswith_occurs. split.
    + intros [t Ht]. by exists "", t.
    + intros (pre & post & H). symmetry in H.
      apply append_eq_nil in H as [-> H]. by exists post.
  - cbn [contains]. rewrite orb_true_iff, IH, startswith_occurs. split.
    + intros [[t Ht]|(pre & post & Ht)].
      * by exists "", t.
      * exists (String c pre), post. by rewrite append_cons, Ht.
    + intros ([|x pre] & post & Ht).
      * left. by exists post.
      * right. rewrite append_cons in Ht. exists pre, post. congruence.
Qed.

Lemma not_contains_occurs needle hay :
  contains needle hay = false <-> ~ occurs needle hay.
Proof. rewrite <- contains_occurs. by destruct (contains needle hay). Qed.

(** *** [lower] *)

Lemma lower_app a b : lower (a +:+ b) = lower a +:+ lower b.
Proof. induction a as [|x a IH]; [done|]. rewrite !append_cons. simpl. by rewrite IH. Qed.

Lemma lower_split s a b :
  lower s = a +:+ b -> exists a' b', s = a' +:+ b' /\ lower a' = a /\ lower b' = b.
Proof.
  revert s. induction a as [|x a IH]; intros s H.
  - by exists "", s.
  - destruct s as [|c s]; [done|]. rewrite append_cons in H. simpl in H.
    injection H as Hc Hs. destruct (IH _ Hs) as (a' & b' & -> & Ha & Hb).
    exists (String c a'), b'. simpl. by rewrite Hc, Ha.
Qed.

Lemma lower_char_idem c : lower_char (lower_char c) = lower_char c.
Proof. by destruct c as [[] [] [] [] [] [] [] []]. Qed.

Lemma lower_idem s : lower (lower s) = lower s.
Proof. induction s as [|c s IH]; [done|]. simpl. by rewrite lower_char_idem, IH. Qed.

(** The test the classifier runs is occurrence up to letter case. *)
Lemma contains_lower_occurs_ci kw text :
  lower kw = kw ->
  contains kw (lower text) = true <-> occurs_ci kw text.
Proof.
  intros Hkw. rewrite contains_occurs. split.
  - intros (pre & post & H).
    apply lower_split in H as (pre' & rest & -> & _ & H).
    apply lower_split in H as (mid & post' & -> & H & _).
    exists pre', mid, post'. by rewrite Hkw.
  - intros (pre & mid & post & -> & H).
    exists (lower pre), (lower post). by rewrite !lower_app, H, Hkw.
Qed.

Lemma existsb_contains_occurs_ci kws text :
  Forall (fun kw => lower kw = kw) kws ->
  existsb (fun kw => contains kw (lower text)) kws = true
  <-> exists kw, kw ∈ kws /\ occurs_ci kw text.
Proof.
  intros Hkws. rewrite existsb_exists. split.
  - intros (kw & Hin & H). exists kw. apply list_elem_of_In in Hin. split; [done|].
    apply contains_lower_occurs_ci; [|done].
    by apply (proj1 (Forall_forall _ _) Hkws).
  - intros (kw & Hin & H). exists kw. split; [by apply list_elem_of_In|].
    apply contains_lower_occurs_ci; [|done].
    by apply (proj1 (Forall_forall _ _) Hkws).
Qed.

(** *** [replace] with an empty replacement *)

Lemma occurs_length old s : occurs old s -> (String.length old <= String.length s)%nat.
Proof. intros (pre & post & ->). rewrite !length_append. lia. Qed.

Lemma occurs_cons old c s : occurs old s -> occurs old (String c s).
Proof. intros (pre & post & ->). by exists (String c pre), post. Qed.

Lemma occurs_tail old c s :
  occurs old (String c s) -> startswith old (String c s) = false -> occurs old s.
Proof.
  intros H Hs. apply contains_occurs in H. cbn [contains] in H.
  rewrite Hs in H. by apply contains_occurs.
Qed.

Lemma chop_last old : old <> "" -> exists c, old = chop old +:+ String c "".
Proof.
  induction old as [|x old IH]; [done|]. intros _. destruct old as [|y old].
  - by exists x.
  - destruct IH as [c Hc]; [done|]. exists c.
    change (chop (String x (String y old))) with (String x (chop (String y old))).
    by rewrite append_cons, <- Hc.
Qed.

Lemma length_chop old : old <> "" -> S (String.length (chop old)) = String.length old.
Proof.
  intros H. destruct (chop_last old H) as [c Hc].
  rewrite Hc at 2. rewrite length_append. simpl. lia.
Qed.

Lemma startswith_app_l p a b :
  (String.length p <= String.length a)%nat ->
  startswith p (a +:+ b) = startswith p a.
Proof.
  revert a. induction p as [|x p IH]; intros a Hlen; [done|].
  destruct a as [|y a]; simpl in Hlen; [lia|].
  rewrite append_cons. simpl. case_decide; [|done]. apply IH. lia.
Qed.

(** Whether [old] starts at the front of [g ++ old ++ rest] is settled by
    [g] and all of [old] but its last character. *)
Lemma startswith_window old x g rest :
  old <> "" ->
  startswith old (String x g +:+ old +:+ rest)
  = startswith old (String x g +:+ chop old).
Proof.
  intros Hold. destruct (chop_last old Hold) as [c Hc].
  rewrite Hc at 2. rewrite append_assoc, <- (append_assoc (String x g)).
  apply startswith_app_l. rewrite length_append. simpl.
  pose proof (length_chop old Hold). lia.
Qed.

Lemma scan_skip old new a rest :
  replace_scan old new (String.length a) (a +:+ rest) = replace_scan old new 0 rest.
Proof. induction a as [|c a IH]; [by destruct rest|]. by rewrite append_cons. Qed.

Lemma scan_none old s :
  ~ occurs old s -> replace_scan old "" 0 s = s.
Proof.
  induction s as [|c s IH]; intros H; [done|]. simpl.
  destruct (startswith old (String c s)) eqn:Hs.
  - destruct H. apply startswith_occurs in Hs as [t Ht]. by exists "", t.
  - rewrite IH; [done|]. intros Ho. apply H. by apply occurs_cons.
Qed.

Lemma scan_step old g rest :
  old <> "" -> ~ occurs old (g +:+ chop old) ->
  replace_scan old "" 0 (g +:+ old +:+ rest) = g +:+ replace_scan old "" 0 rest.
Proof.
  intros Hold. induction g as [|x g IH]; intros H.
  - destruct old as [|c old]; [done|].
    change (replace_scan (String c old) "" 0 (String c (old +:+ rest))
            = replace_scan (String c old) "" 0 rest).
    assert (startswith (String c old) (String c (old +:+ rest)) = true) as Hs.
    { apply startswith_occurs. by exists rest. }
    cbn [replace_scan]. rewrite Hs.
    replace (String.length (String c old) - 1)%nat with (String.length old)
      by (simpl; lia).
    apply scan_skip.
  - assert (startswith old (String x g +:+ old +:+ rest) = false) as Hs.
    { rewrite startswith_window by done.
      destruct (startswith old (String x g +:+ chop old)) eqn:Hs; [|done].
      destruct H. apply startswith_occurs in Hs as [t Ht]. by exists "", t. }
    rewrite append_cons in Hs |- *. cbn [replace_scan]. rewrite Hs, append_cons, IH; [done|].
    intros Ho. apply H. rewrite append_cons. by apply occurs_cons.
Qed.

Lemma first_occurrence old s :
  old <> "" -> occurs old s ->
  exists g rest, s = g +:+ old +:+ rest /\ ~ occurs old (g +:+ chop old).
Proof.
  intros Hold. induction s as [|c s IH]; intros H.
  - apply occurs_length in H. destruct old; [done|simpl in H; lia].
  - destruct (startswith old (String c s)) eqn:Hs.
    + apply startswith_occurs in Hs as [t Ht]. exists "", t. split; [done|].
      intros Ho%occurs_length. pose proof (length_chop old Hold).
      change ("" +:+ chop old) with (chop old) in Ho. lia.
    + destruct (IH (occurs_tail _ _ _ H Hs)) as (g & rest & -> & Hg).
      exists (String c g), rest. split; [done|]. intros Ho.
      rewrite <- append_cons, startswith_window in Hs by done.
      rewrite append_cons in Ho, Hs. by apply occurs_tail in Ho.
Qed.

Lemma replace_nonempty old new s :
  old <> "" -> replace old new s = replace_scan old new 0 s.
Proof. by destruct old. Qed.

(** Whatever the spec's removal yields is what [replace] returns. *)
Lemma removed_sound old s r :
  old <> "" -> removed old s r -> r = replace old "" s.
Proof.
  intros Hold H. rewrite replace_nonempty by done.
  induction H as [s H|g rest r Hg _ IH].
  - by rewrite scan_none.
  - by rewrite scan_step, IH.
Qed.

(** And [replace] is a removal in the spec's sense. *)
Lemma removed_complete old s :
  old <> "" -> removed old s (replace old "" s).
Proof.
  intros Hold. rewrite replace_nonempty by done.
  remember (String.length s) as n eqn:Hn. revert s Hn.
  induction n as [n IH] using lt_wf_ind. intros s ->.
  destruct (contains old s) eqn:Hc.
  - apply contains_occurs, first_occurrence in Hc as (g & rest & -> & Hg); [|done].
    rewrite scan_step by done. apply removed_step; [done|].
    apply (IH (String.length rest)); [|done].
    rewrite !length_append. destruct old; [done|simpl; lia].
  - apply not_contains_occurs in Hc. rewrite scan_none by done.
    by apply removed_none.
Qed.

(** *** [strip] *)

Lemma all_space_app a b : all_space a -> all_space b -> all_space (a +:+ b).
Proof.
  induction a as [|c a IH]; [done|]. intros [Hc Ha] Hb.
  rewrite append_cons. split; [done|]. by apply IH.
Qed.

Lemma lstrip_decomp s :
  exists l, s = l +:+ lstrip s /\ all_space l /\ ~ space_first (lstrip s).
Proof.
  induction s as [|c s (l & Hl & Hsp & Hf)].
  - exists "". split_and!; [done..|]. by intros (c & t & ? & _).
  - simpl. destruct (isspace c) eqn:Hc.
    + exists (String c l). rewrite append_cons, <- Hl. by split_and!.
    + exists "". split_and!; [done..|]. intros (d & t & [= <- <-] & Hd). congruence.
Qed.

Lemma lstrip_all_space l x : all_space l -> lstrip (l +:+ x) = lstrip x.
Proof.
  induction l as [|c l IH]; [done|]. intros [Hc Hl].
  rewrite append_cons. simpl. rewrite Hc. by apply IH.
Qed.

Lemma lstrip_id x : ~ space_first x -> lstrip x = x.
Proof.
  destruct x as [|c x]; [done|]. intros H. simpl.
  destruct (isspace c) eqn:Hc; [|done]. destruct H. by exists c, x.
Qed.

Lemma rstrip_all_space t : all_space t -> rstrip t = "".
Proof.
  induction t as [|c t IH]; [done|]. intros [Hc Ht]. simpl. by rewrite IH, Hc.
Qed.

Lemma rstrip_app_space r t : all_space t -> rstrip (r +:+ t) = rstrip r.
Proof.
  intros Ht. induction r as [|c r IH]; [by apply rstrip_all_space|].
  rewrite append_cons. simpl. by rewrite IH.
Qed.

Lemma space_last_cons c r : space_last r -> space_last (String c r).
Proof. intros (t & d & -> & Hd). by exists (String c t), d. Qed.

Lemma append_nil_l s : "" +:+ s = s.
Proof. reflexivity. Qed.

Lemma space_last_single c : space_last (String c "") -> isspace c = true.
Proof.
  intros ([|x t] & y & H & Hy).
  - rewrite append_nil_l in H. congruence.
  - rewrite append_cons in H. injection H as _ H. symmetry in H.
    by apply append_eq_nil in H as [_ ?].
Qed.

Lemma space_last_tail c d r :
  space_last (String c (String d r)) -> space_last (String d r).
Proof.
  intros ([|x t] & y & H & Hy).
  - rewrite append_nil_l in H. congruence.
  - rewrite append_cons in H. injection H as _ H. by exists t, y.
Qed.

Lemma rstrip_id r : ~ space_last r -> rstrip r = r.
Proof.
  induction r as [|c r IH]; [done|]. intros H. simpl.
  rewrite IH by (intros Hr; apply H; by apply space_last_cons).
  destruct r as [|d r]; [|done].
  destruct (isspace c) eqn:Hc; [|done]. destruct H. by exists "", c.
Qed.

Lemma rstrip_decomp s :
  exists t, s = rstrip s +:+ t /\ all_space t /\ ~ space_last (rstrip s).
Proof.
  induction s as [|c s (t & Ht & Hsp & Hl)].
  - exists "". split_and!; [done..|]. intros (t & c & H & _). by destruct t.
  - simpl. destruct (rstrip s) as [|d r] eqn:Hr.
    + change ("" +:+ t) with t in Ht. subst t. destruct (isspace c) eqn:Hc.
      * exists (String c s). by split_and!.
      * exists s. split_and!; [done..|].
        intros H%space_last_single. congruence.
    + exists t. rewrite append_cons, <- Ht. split_and!; [done..|].
      by intros H%space_last_tail.
Qed.

Lemma rstrip_first s : ~ space_first s -> ~ space_first (rstrip s).
Proof.
  destruct s as [|c s]; [done|]. intros H (d & t & Hr & Hd). apply H.
  exists c, s. split; [done|]. simpl in Hr.
  destruct (rstrip s); [destruct (isspace c) eqn:Hc|]; congruence.
Qed.

(** [strip] removes the white space at the two ends, and nothing else does. *)
Lemma stripped_strip s : stripped s (strip s).
Proof.
  unfold strip. destruct (lstrip_decomp s) as (l & Hl & Hsp & Hf).
  destruct (rstrip_decomp (lstrip s)) as (t & Ht & Hst & Hlast).
  exists l, t. rewrite <- Ht, <- Hl. split_and!; [done..| |done].
  by apply rstrip_first.
Qed.

Lemma stripped_sound s r : stripped s r -> r = strip s.
Proof.
  intros (l & t & -> & Hl & Ht & Hf & Hlast). unfold strip.
  rewrite lstrip_all_space by done. destruct r as [|c r].
  - rewrite append_nil_l, <- (append_nil_r t), lstrip_all_space by done. done.
  - rewrite lstrip_id.
    + by rewrite rstrip_app_space, rstrip_id.
    + rewrite append_cons. intros (d & u & [= <- <-] & Hd). apply Hf. by exists c, r.
Qed.

End PyStrFacts.

(** ** The classifier *)
Module ClassifierFacts.
Import PyStr Spec PyStrFacts BankBot.

Lemma greetings_lower : Forall (fun kw => lower kw = kw) greetings.
Proof. repeat constructor. Qed.

Lemma banking_terms_lower : Forall (fun kw => lower kw = kw) banking_terms.
Proof. repeat constructor. Qed.

Lemma is_greeting_occurs text :
  is_greeting text = true <-> exists kw, kw ∈ greetings /\ occurs_ci kw text.
Proof. apply existsb_contains_occurs_ci, greetings_lower. Qed.

Lemma is_banking_related_occurs text :
  is_banking_related text = true
  <-> exists kw, kw ∈ banking_terms /\ occurs_ci kw text.
Proof. apply existsb_contains_occurs_ci, banking_terms_lower. Qed.

(** The reply follows the classification. *)
Lemma bot_reply_classify E text :
  bot_reply E text =
  match classify text with
  | Greeting => ret greeting_reply
  | OffTopic => ret off_topic_reply
  | BankingRelated => get_ollama_response E text
  end.
Proof.
  unfold bot_reply, classify.
  by destruct (is_greeting text), (is_banking_related text).
Qed.

(** C3. A text in which a greeting keyword and a banking term both occur,
    up to letter case, is classified [Greeting]: the greeting test comes
    first, the reply is the greeting template and the state, with its
    record of requests, is left as it was. *)
Theorem classify_greeting_precedence (text : string) :
  (exists g, g ∈ greetings /\ occurs_ci g text) ->
  (exists b, b ∈ banking_terms /\ occurs_ci b text) ->
  classify text = Greeting
  /\ forall E w, bot_reply E text w = Returned greeting_reply w.
Proof.
  intros Hg%is_greeting_occurs _.
  assert (classify text = Greeting) as Hc by (unfold classify; by rewrite Hg).
  split; [done|]. intros E w. by rewrite bot_reply_classify, Hc.
Qed.

(** C4. A text in which no greeting keyword and no banking term occurs, up
    to letter case, is classified [OffTopic] and answered with the
    off-topic template without a request; the empty text is one. *)
Theorem classify_off_topic :
  (forall text,
      (forall kw, kw ∈ greetings ++ banking_terms -> ~ occurs_ci kw text) ->
      classify text = OffTopic
      /\ forall E w, bot_reply E text w = Returned off_topic_reply w)
  /\ classify "" = OffTopic.
Proof.
  split; [|done]. intros text H.
  assert (is_greeting text = false) as Hg.
  { apply not_true_is_false. intros (kw & Hin & Ho)%is_greeting_occurs.
    apply (H kw); [|done]. apply elem_of_app. by left. }
  assert (is_banking_related text = false) as Hb.
  { apply not_true_is_false. intros (kw & Hin & Ho)%is_banking_related_occurs.
    apply (H kw); [|done]. apply elem_of_app. by right. }
  assert (classify text = OffTopic) as Hc by (unfold classify; by rewrite Hg, Hb).
  split; [done|]. intros E w. by rewrite bot_reply_classify, Hc.
Qed.

End ClassifierFacts.

(** ** The clean-up of the completion *)
Module CleanupFacts.
Import PyStr Spec PyStrFacts BankBot.

Lemma cleanup_unfold raw :
  cleanup raw =
  strip (replace "Customer Question" ""
           (replace "Answer only" "" (replace "You are BankBot" "" raw))).
Proof. reflexivity. Qed.

(** C2, as the code has it.  The clean-up is three removals in a row, one
    per fragment in the order of the list, each taking out the occurrences
    a scan from the left finds in the text as the previous removal left it,
    followed by the removal of the white space at the two ends; no other
    text fits that description.  On the completion
    "You are BankBot, your balance is $500" the result keeps the comma. *)
Theorem cleanup_removes_fragments :
  (forall raw,
      exists r1 r2 r3,
        removed "You are BankBot" raw r1
        /\ removed "Answer only" r1 r2
        /\ removed "Customer Question" r2 r3
        /\ stripped r3 (cleanup raw))
  /\ (forall raw r1 r2 r3 out,
         removed "You are BankBot" raw r1 ->
         removed "Answer only" r1 r2 ->
         removed "Customer Question" r2 r3 ->
         stripped r3 out ->
         cleanup raw = out)
  /\ cleanup "You are BankBot, your balance is $500" = ", your balance is $500".
Proof.
  split_and!.
  - intros raw. eexists _, _, _. rewrite cleanup_unfold.
    split_and!; [apply removed_complete; done..|apply stripped_strip].
  - intros raw r1 r2 r3 out H1 H2 H3 H4. rewrite cleanup_unfold.
    apply removed_sound in H1 as ->; [|done].
    apply removed_sound in H2 as ->; [|done].
    apply removed_sound in H3 as ->; [|done].
    by apply stripped_sound in H4 as ->.
  - reflexivity.
Qed.

(** C2, as the spec words its example: the code's result differs. *)
Lemma cleanup_example_keeps_comma :
  cleanup "You are BankBot, your balance is $500" = ", your balance is $500"
  /\ ", your balance is $500" <> "your balance is $500".
Proof. by split. Qed.

(** A fragment can survive the clean-up: the removal of a later fragment
    can put an earlier one together. *)
Lemma cleanup_can_leave_fragment :
  cleanup "Answer Customer Questiononly" = "Answer only".
Proof. reflexivity. Qed.

End CleanupFacts.

(** ** The turn *)
Module TurnFacts.
Import PyStr Spec PyStrFacts BankBot States ClassifierFacts.

Lemma send_message_blank_eq E w :
  strip (user_input w) = "" -> send_message E w = Returned () w.
Proof. intros H. unfold send_message, bind, gets. by rewrite H. Qed.

Lemma send_message_eq E w :
  strip (user_input w) <> "" ->
  send_message E w =
  match bot_reply E (strip (user_input w)) (user_stored E w) with
  | Returned reply w' => Returned () (reply_stored E reply w')
  | Raised e w' => Raised e w'
  end.
Proof.
  intros H. unfold send_message, bind, gets. cbn beta.
  destruct (decide (strip (user_input w) = "")) as [|_]; [done|].
  cbn. change (bot_reply E (strip (user_input w)) _)
    with (bot_reply E (strip (user_input w)) (user_stored E w)).
  by destruct (bot_reply E (strip (user_input w)) (user_stored E w)).
Qed.

Lemma get_ollama_response_eq E q w :
  get_ollama_response E q w =
  let w' := set_posted (posted w ++ [full_prompt q]) w in
  match http_post E (length (posted w)) (full_prompt q) with
  | PostRaises e => Raised e w'
  | Replied NotJson => Raised JSONDecodeError w'
  | Replied JsonOther => Raised AttributeError w'
  | Replied (JsonObject None) => Returned "" w'
  | Replied (JsonObject (Some (JString s))) => Returned (cleanup s) w'
  | Replied (JsonObject (Some JOther)) => Raised AttributeError w'
  end.
Proof.
  unfold get_ollama_response, bind, requests_post.
  by destruct (http_post E (length (posted w)) (full_prompt q))
    as [e|[| [[s|]|] |]].
Qed.

(** Reply generation reads and writes the record of requests only. *)
Lemma bot_reply_frame E text (f : World -> World) w :
  (forall p v, f (set_posted p v) = set_posted p (f v)) ->
  posted (f w) = posted w ->
  bot_reply E text (f w) =
  match bot_reply E text w with
  | Returned r w' => Returned r (f w')
  | Raised e w' => Raised e (f w')
  end.
Proof.
  intros Hf Hp. rewrite !bot_reply_classify. destruct (classify text); [done| |done].
  rewrite !get_ollama_response_eq, Hp. cbn zeta.
  by destruct (http_post E (length (posted w)) (full_prompt text))
    as [e|[| [[s|]|] |]]; rewrite Hf.
Qed.

Lemma bot_reply_posted E text w :
  exists p, final (bot_reply E text w) = set_posted p w.
Proof.
  rewrite bot_reply_classify. destruct (classify text).
  - exists (posted w). by destruct w.
  - rewrite get_ollama_response_eq. eexists. cbn zeta.
    by destruct (http_post E (length (posted w)) (full_prompt text))
      as [e|[| [[s|]|] |]].
  - exists (posted w). by destruct w.
Qed.

Lemma send_message_frame E w :
  strip (user_input w) <> "" ->
  send_message E w =
  match bot_reply E (strip (user_input w)) w with
  | Returned reply w' => Returned () (reply_stored E reply (user_stored E w'))
  | Raised e w' => Raised e (user_stored E w')
  end.
Proof.
  intros H. rewrite send_message_eq by done.
  pose proof (bot_reply_posted E (strip (user_input w)) w) as [p Hp].
  rewrite (bot_reply_frame E _ (user_stored E)); [|done..].
  destruct (bot_reply E (strip (user_input w)) w) as [r w'|e w'];
    simpl in Hp; subst w'; reflexivity.
Qed.

Lemma strip_empty_all_space s : strip s = "" -> all_space s.
Proof.
  intros H. destruct (stripped_strip s) as (l & t & Hs & Hl & Ht & _).
  rewrite H, append_nil_l in Hs. subst s. by apply all_space_app.
Qed.

Lemma transcript_insert_eq w l xs (h : gmap loc (list Message)) :
  transcript (set_heap (<[l := xs]> h) w) l = xs.
Proof. unfold transcript. simpl. by rewrite lookup_insert_eq. Qed.

Lemma classify_banking_nonempty text :
  classify text = BankingRelated -> text <> "".
Proof. by intros H ->. Qed.

(** C6. A submission whose trimmed text is empty, which is to say one
    that is empty or made of white space only, is dropped: the turn
    returns normally in the state it started in, so nothing is appended
    and nothing is posted. *)
Theorem send_message_blank (E : Env) (w : World) :
  strip (user_input w) = "" ->
  all_space (user_input w)
  /\ send_message E w = Returned () w.
Proof.
  intros H. split; [by apply strip_empty_all_space|by apply send_message_blank_eq].
Qed.

(** C5, as the code has it.  When the trimmed text is not empty and the
    reply generation returns [reply], the turn returns and the active
    transcript is the old one followed by the user's message, holding the
    trimmed text, and the bot's message, holding [reply]; every other list
    object, the archive, the active reference and the identifier are as
    before.  The reply generation reads the record of requests only
    ([bot_reply_frame]), so it is stated from the state the turn starts
    in. *)
Theorem send_message_appends_two (E : Env) (w : World) (reply : string) (w' : World) :
  strip (user_input w) <> "" ->
  bot_reply E (strip (user_input w)) w = Returned reply w' ->
  let cur := current_chat w in
  let um := {| role := user; content := strip (user_input w);
               time := now E (ticks w) |} in
  let bm := {| role := bot; content := reply; time := now E (S (ticks w)) |} in
  exists w'',
    send_message E w = Returned () w''
    /\ transcript w'' cur = transcript w cur ++ [um; bm]
    /\ (forall l, l <> cur -> heap w'' !! l = heap w !! l)
    /\ chat_history w'' = chat_history w
    /\ current_chat w'' = cur
    /\ chat_id w'' = chat_id w
    /\ posted w'' = posted w'.
Proof.
  intros Hne Hr cur um bm. rewrite send_message_frame, Hr by done.
  eexists. split; [done|].
  destruct (bot_reply_posted E (strip (user_input w)) w) as [p Hp].
  rewrite Hr in Hp. simpl in Hp. subst w'.
  split_and!; try done.
  - unfold reply_stored, user_stored, transcript. simpl.
    rewrite !lookup_insert_eq. simpl. by rewrite <- List.app_assoc.
  - intros l Hl. simpl. by rewrite !lookup_insert_ne.
Qed.

(** C10. On a banking-related text the request goes out from the state
    in which the user's message is already stored; when the adapter
    raises, the turn raises the same exception and ends in that state: the
    transcript is the old one followed by the user's message, with no
    reply behind it, and the input box still holds the text. *)
Theorem send_message_backend_raises (E : Env) (w : World) (e : exn) (w' : World) :
  classify (strip (user_input w)) = BankingRelated ->
  get_ollama_response E (strip (user_input w)) w = Raised e w' ->
  let cur := current_chat w in
  let text := strip (user_input w) in
  let um := {| role := user; content := text; time := now E (ticks w) |} in
  exists w'',
    send_message E w = Raised e w''
    /\ get_ollama_response E text (user_stored E w) = Raised e w''
    /\ transcript (user_stored E w) cur = transcript w cur ++ [um]
    /\ transcript w'' cur = transcript w cur ++ [um]
    /\ posted w'' = posted w ++ [full_prompt text]
    /\ user_input w'' = user_input w
    /\ chat_history w'' = chat_history w.
Proof.
  intros Hc Hr cur text um.
  pose proof (classify_banking_nonempty _ Hc) as Hne.
  pose proof (send_message_eq E w Hne) as Hs.
  pose proof (bot_reply_frame E text (user_stored E) w
                (fun _ _ => eq_refl) eq_refl) as Hf.
  rewrite bot_reply_classify in Hs, Hf. fold text in Hc, Hs, Hr, Hf.
  rewrite Hc in Hs, Hf. rewrite Hr in Hf. rewrite Hf in Hs.
  exists (user_stored E w'). split_and!; try done.
  - apply transcript_insert_eq.
  - rewrite get_ollama_response_eq in Hr. cbn zeta in Hr.
    destruct (http_post E (length (posted w)) (full_prompt text))
      as [?|[| [[?|]|] |]]; simplify_eq; apply transcript_insert_eq.
  - rewrite get_ollama_response_eq in Hr. cbn zeta in Hr.
    by destruct (http_post E (length (posted w)) (full_prompt text))
      as [?|[| [[?|]|] |]]; simplify_eq.
  - rewrite get_ollama_response_eq in Hr. cbn zeta in Hr.
    by destruct (http_post E (length (posted w)) (full_prompt text))
      as [?|[| [[?|]|] |]]; simplify_eq.
  - rewrite get_ollama_response_eq in Hr. cbn zeta in Hr.
    by destruct (http_post E (length (posted w)) (full_prompt text))
      as [?|[| [[?|]|] |]]; simplify_eq.
Qed.

(** C1, as the code has it.  On a banking-related text the turn has no
    handler around the adapter.  When the request raises (connection,
    timeout), when the body is not JSON, is not an object, or holds a
    ["response"] that is not a string, the exception leaves the turn: it
    does not return, and the transcript ends with the user's message.
    When ["response"] is only missing the turn returns and the reply
    stored is the empty text. *)
Theorem send_message_backend_failure (E : Env) (w : World) :
  classify (strip (user_input w)) = BankingRelated ->
  let cur := current_chat w in
  let text := strip (user_input w) in
  let um := {| role := user; content := text; time := now E (ticks w) |} in
  let bm := {| role := bot; content := ""; time := now E (S (ticks w)) |} in
  let answer := http_post E (length (posted w)) (full_prompt text) in
  let crashes e :=
    exists w', send_message E w = Raised e w'
               /\ transcript w' cur = transcript w cur ++ [um] in
  (forall e, answer = PostRaises e -> crashes e)
  /\ (answer = Replied NotJson -> crashes JSONDecodeError)
  /\ (answer = Replied JsonOther -> crashes AttributeError)
  /\ (answer = Replied (JsonObject (Some JOther)) -> crashes AttributeError)
  /\ (answer = Replied (JsonObject None) ->
      exists w', send_message E w = Returned () w'
                 /\ transcript w' cur = transcript w cur ++ [um; bm]).
Proof.
  intros Hc cur text um bm answer crashes.
  pose proof (classify_banking_nonempty _ Hc) as Hne.
  pose proof (send_message_frame E w Hne) as Hs.
  rewrite bot_reply_classify in Hs. fold text in Hc, Hs. rewrite Hc in Hs.
  rewrite get_ollama_response_eq in Hs. cbn zeta in Hs. fold answer in Hs.
  split_and!.
  - intros e He. rewrite He in Hs. eexists. split; [done|].
    apply transcript_insert_eq.
  - intros He. rewrite He in Hs. eexists. split; [done|].
    apply transcript_insert_eq.
  - intros He. rewrite He in Hs. eexists. split; [done|].
    apply transcript_insert_eq.
  - intros He. rewrite He in Hs. eexists. split; [done|].
    apply transcript_insert_eq.
  - intros He. rewrite He in Hs. eexists. split; [done|].
    unfold reply_stored, user_stored, transcript. simpl.
    rewrite !lookup_insert_eq. simpl. by rewrite <- List.app_assoc.
Qed.

End TurnFacts.

(** ** The conversation store *)
Module StoreFacts.
Import PyStr BankBot States.

Lemma save_chat_eq w :
  save_chat w =
  match transcript w (current_chat w) with
  | [] => Returned () w
  | _ :: _ => Returned () (archived w)
  end.
Proof.
  unfold save_chat, bind, gets, archived.
  by destruct (transcript w (current_chat w)).
Qed.

Lemma fresh_loc_unused w : heap w !! fresh (dom (heap w)) = None.
Proof. apply not_elem_of_dom, is_fresh. Qed.

Lemma transcript_insert_fresh w l xs h (hist : list Chat) :
  transcript (set_chat_history hist (set_heap (<[l := xs]> h) w)) l = xs.
Proof. unfold transcript. simpl. by rewrite lookup_insert_eq. Qed.

(** One round of the loop. *)
Lemma sidebar_cons clicked seen chat rest w :
  sidebar_chat_selection clicked seen (chat :: rest) w =
  if bool_decide (id chat ∈ seen) then Raised DuplicateElementKey w
  else sidebar_chat_selection clicked (id chat :: seen) rest
         (if clicked (id chat) then selected chat w else w).
Proof.
  cbn [sidebar_chat_selection]. case_bool_decide; [done|].
  unfold bind. by destruct (clicked (id chat)).
Qed.

(** The loop raises nothing but the error of a repeated key. *)
Lemma sidebar_raises clicked seen chats w e w' :
  sidebar_chat_selection clicked seen chats w = Raised e w' ->
  e = DuplicateElementKey.
Proof.
  revert seen w. induction chats as [|c chats IH]; intros seen w; [done|].
  rewrite sidebar_cons. case_bool_decide; [congruence|]. apply IH.
Qed.

(** The loop returns exactly when no key repeats. *)
Lemma sidebar_returns clicked seen chats w :
  returned (sidebar_chat_selection clicked seen chats w) = true
  <-> NoDup (map id chats) /\ forall c, c ∈ chats -> id c ∉ seen.
Proof.
  revert seen w. induction chats as [|c chats IH]; intros seen w.
  - split; [intros _|done]. split; [constructor|]. by intros c Hc%not_elem_of_nil.
  - rewrite sidebar_cons. case_bool_decide as Hseen.
    + split; [done|]. intros [_ H]. destruct (H c); [apply list_elem_of_here|done].
    + rewrite IH. cbn [map]. rewrite NoDup_cons. split.
      * intros [Hnd H]. split_and!; [|done|].
        -- intros (c' & Heq & Hin)%list_elem_of_fmap.
           apply (H c' Hin). rewrite <- Heq. apply list_elem_of_here.
        -- intros c' [->|Hin]%elem_of_cons; [done|].
           intros Hs. apply (H c' Hin). by apply list_elem_of_further.
      * intros [[Hc Hnd] H]. split; [done|].
        intros c' Hin [Heq|Hs]%elem_of_cons.
        -- apply Hc. rewrite <- Heq. by apply list_elem_of_fmap_2.
        -- apply (H c'); [by apply list_elem_of_further|done].
Qed.

(** Entries whose button, if pressed, carries a key drawn already select
    nothing: the loop raises before it reads their button. *)
Lemma sidebar_no_more clicked seen chats w :
  (forall c, c ∈ chats -> clicked (id c) = true -> id c ∈ seen) ->
  final (sidebar_chat_selection clicked seen chats w) = w.
Proof.
  revert seen w. induction chats as [|c chats IH]; intros seen w H; [done|].
  rewrite sidebar_cons. case_bool_decide as Hseen; [done|].
  destruct (clicked (id c)) eqn:Hc.
  - destruct Hseen. apply H; [apply list_elem_of_here|done].
  - apply IH. intros c' Hin Hc'. apply list_elem_of_further.
    apply H; [by apply list_elem_of_further|done].
Qed.

(** The first entry under the pressed key is the one selected, when its
    button is drawn. *)
Lemma sidebar_first i seen pre c post w :
  id c = i -> i ∉ seen ->
  NoDup (map id pre) ->
  (forall x, x ∈ pre -> id x <> i /\ id x ∉ seen) ->
  final (sidebar_chat_selection (fun key => bool_decide (key = i)) seen
           (pre ++ c :: post) w) = selected c w.
Proof.
  intros Hc. revert seen w. induction pre as [|x pre IH]; intros seen w Hi Hnd H.
  - cbn [app]. rewrite sidebar_cons, Hc.
    rewrite bool_decide_eq_false_2 by done.
    rewrite (bool_decide_eq_true_2 (i = i)) by done.
    apply sidebar_no_more. intros c' _ Heq%bool_decide_eq_true.
    rewrite Heq. apply list_elem_of_here.
  - cbn [app]. rewrite sidebar_cons.
    destruct (H x) as [Hx Hxs]; [apply list_elem_of_here|].
    rewrite bool_decide_eq_false_2 by done.
    rewrite (bool_decide_eq_false_2 (id x = i)) by done.
    cbn [map] in Hnd. apply NoDup_cons in Hnd as [Hxp Hnd].
    apply IH; [|done|].
    + intros [Heq|Hs]%elem_of_cons; [by apply Hx|done].
    + intros y Hy. destruct (H y) as [Hy1 Hy2]; [by apply list_elem_of_further|].
      split; [done|]. intros [Heq|Hs]%elem_of_cons; [|done].
      apply Hxp. rewrite <- Heq. by apply list_elem_of_fmap_2.
Qed.

Lemma select_chat_eq i w :
  select_chat i w
  = sidebar_chat_selection (fun key => bool_decide (key = i)) [] (chat_history w) w.
Proof. reflexivity. Qed.


(** The entry at the front is selected by its key. *)
Lemma select_chat_front i chat chats w :
  chat_history w = chat :: chats -> id chat = i ->
  final (select_chat i w) = selected chat w.
Proof.
  intros Hh Hi. rewrite select_chat_eq, Hh.
  apply (sidebar_first i [] [] chat chats w); [done| |constructor|].
  - apply not_elem_of_nil.
  - by intros x Hx%not_elem_of_nil.
Qed.

(** A pass returns exactly when no key repeats in the archive, and raises
    nothing else than the error of a repeated key. *)
Lemma select_chat_returns i w :
  returned (select_chat i w) = true <-> NoDup (map id (chat_history w)).
Proof.
  rewrite select_chat_eq, sidebar_returns. split; [by intros [? _]|].
  intros H. split; [done|]. intros c _. apply not_elem_of_nil.
Qed.


(** C7. [save_chat] on an empty transcript returns in the state it
    started in; on a transcript that is not empty it puts one entry in
    front of the archive, the rest of which is as before: the entry
    carries the active identifier, the title derived from the transcript
    and a reference to a new list object that holds the transcript. *)
Theorem save_chat_archive (w : World) :
  let msgs := transcript w (current_chat w) in
  (msgs = [] -> save_chat w = Returned () w)
  /\ (msgs <> [] ->
      exists w' l,
        save_chat w = Returned () w'
        /\ chat_history w' =
             {| id := chat_id w; title := generate_chat_title msgs;
                messages := l |} :: chat_history w
        /\ length (chat_history w') = S (length (chat_history w))
        /\ heap w !! l = None
        /\ transcript w' l = msgs
        /\ transcript w' (current_chat w') = msgs
        /\ current_chat w' = current_chat w
        /\ chat_id w' = chat_id w).
Proof.
  intros msgs. subst msgs. rewrite save_chat_eq.
  pose proof (fresh_loc_unused w) as Hf.
  destruct (transcript w (current_chat w)) as [|m ms] eqn:Hm; split; try done.
  intros _. exists (archived w), (fresh (dom (heap w))).
  assert (transcript (archived w) (fresh (dom (heap w))) = m :: ms) as Hl.
  { unfold archived. by rewrite transcript_insert_fresh, Hm. }
  split_and!; try done.
  - unfold archived. by rewrite Hm.
  - unfold archived, transcript. simpl. rewrite lookup_insert_ne; [done|].
    intros Heq. unfold transcript in Hm. by rewrite <- Heq, Hf in Hm.
Qed.




End StoreFacts.

(** ** References never dangle *)
Module Invariant.
Import PyStr BankBot States PyStrFacts ClassifierFacts TurnFacts StoreFacts.

Lemma wf_init E : wf (init E).
Proof.
  split; [|by intros c Hc%not_elem_of_nil].
  unfold init. simpl. by rewrite lookup_singleton_eq.
Qed.

(** Storing into the heap, at whatever location, keeps the references. *)
Lemma wf_store w l xs :
  wf w -> wf (set_heap (<[l := xs]> (heap w)) w).
Proof.
  intros [Hc Hh]. split; simpl.
  - apply lookup_insert_is_Some'. by right.
  - intros c Hin. apply lookup_insert_is_Some'. right. by apply Hh.
Qed.

Lemma wf_set_posted p w : wf w -> wf (set_posted p w).
Proof. by intros [Hc Hh]. Qed.

Lemma wf_set_ticks n w : wf w -> wf (set_ticks n w).
Proof. by intros [Hc Hh]. Qed.

Lemma wf_set_user_input s w : wf w -> wf (set_user_input s w).
Proof. by intros [Hc Hh]. Qed.

Lemma wf_reset_chat E w : wf w -> wf (final (reset_chat E w)).
Proof.
  intros [Hc Hh]. split; simpl.
  - by rewrite lookup_insert_eq.
  - intros c Hin. apply lookup_insert_is_Some'. right. by apply Hh.
Qed.

Lemma wf_save_chat w : wf w -> wf (final (save_chat w)).
Proof.
  intros Hw. rewrite save_chat_eq.
  destruct (transcript w (current_chat w)) as [|m ms]; [done|].
  destruct Hw as [Hc Hh]. split; simpl.
  - apply lookup_insert_is_Some'. by right.
  - intros c [->|Hin]%elem_of_cons; simpl.
    + by rewrite lookup_insert_eq.
    + apply lookup_insert_is_Some'. right. by apply Hh.
Qed.

Lemma wf_selected c w :
  is_Some (heap w !! messages c) -> wf w -> wf (selected c w).
Proof. intros Hc [_ Hh]. by split. Qed.

Lemma wf_sidebar clicked seen chats w :
  (forall c, c ∈ chats -> is_Some (heap w !! messages c)) ->
  wf w -> wf (final (sidebar_chat_selection clicked seen chats w)).
Proof.
  revert seen w. induction chats as [|c chats IH]; intros seen w Hin Hw; [done|].
  rewrite sidebar_cons. case_bool_decide; [done|].
  apply IH.
  - intros c' Hc'. destruct (clicked (id c)); apply Hin; by apply list_elem_of_further.
  - destruct (clicked (id c)); [|done].
    apply wf_selected; [|done]. apply Hin, list_elem_of_here.
Qed.

Lemma wf_select_chat i w : wf w -> wf (final (select_chat i w)).
Proof. intros Hw. rewrite select_chat_eq. apply wf_sidebar; [|done]. by destruct Hw. Qed.

Lemma wf_user_stored E w : wf w -> wf (user_stored E w).
Proof. intros Hw. by apply (wf_store (set_ticks _ w)), wf_set_ticks. Qed.

Lemma wf_reply_stored E r w : wf w -> wf (reply_stored E r w).
Proof.
  intros Hw. by apply wf_set_user_input, (wf_store (set_ticks _ w)), wf_set_ticks.
Qed.

(** A turn keeps the references, also when it raises. *)
Lemma wf_send_message E w : wf w -> wf (final (send_message E w)).
Proof.
  intros Hw. destruct (decide (strip (user_input w) = "")) as [He|Hne].
  - by rewrite send_message_blank_eq.
  - rewrite send_message_frame by done.
    destruct (bot_reply_posted E (strip (user_input w)) w) as [p Hp].
    destruct (bot_reply E (strip (user_input w)) w) as [r w'|e w'];
      simpl in Hp; subst w'; cbn [final].
    + by apply wf_reply_stored, wf_user_stored, wf_set_posted.
    + by apply wf_user_stored, wf_set_posted.
Qed.

End Invariant.

(** ** Runs on concrete inputs *)
Module Examples.
Import PyStr Spec PyStrFacts BankBot States Inputs.
Import ClassifierFacts CleanupFacts TurnFacts StoreFacts.

Lemma classify_greeting_precedence_witness :
  (exists g, g ∈ greetings /\ occurs_ci g "Hello, bank")
  /\ (exists b, b ∈ banking_terms /\ occurs_ci b "Hello, bank")
  /\ classify "Hello, bank" = Greeting
  /\ forall E w, bot_reply E "Hello, bank" w = Returned greeting_reply w.
Proof.
  assert (exists g, g ∈ greetings /\ occurs_ci g "Hello, bank") as Hg.
  { exists "hello". split; [by repeat constructor|]. by exists "", "Hello", ", bank". }
  assert (exists b, b ∈ banking_terms /\ occurs_ci b "Hello, bank") as Hb.
  { exists "bank". split; [by repeat constructor|]. by exists "Hello, ", "bank", "". }
  split; [done|]. split; [done|].
  exact (classify_greeting_precedence "Hello, bank" Hg Hb).
Defined.

Lemma classify_off_topic_witness :
  (forall kw, kw ∈ greetings ++ banking_terms -> ~ occurs_ci kw "weather")
  /\ classify "weather" = OffTopic
  /\ forall E w, bot_reply E "weather" w = Returned off_topic_reply w.
Proof.
  assert (forall kw, kw ∈ greetings ++ banking_terms -> ~ occurs_ci kw "weather") as H.
  { intros kw [Hin|Hin]%elem_of_app Ho.
    - assert (is_greeting "weather" = true) as Hc
        by (apply is_greeting_occurs; eauto).
      by vm_compute in Hc.
    - assert (is_banking_related "weather" = true) as Hc
        by (apply is_banking_related_occurs; eauto).
      by vm_compute in Hc. }
  split; [done|]. exact (proj1 classify_off_topic "weather" H).
Defined.

Lemma cleanup_removes_fragments_witness :
  removed "You are BankBot" "You are BankBot, your balance is $500"
          ", your balance is $500"
  /\ stripped ", your balance is $500" ", your balance is $500"
  /\ cleanup "You are BankBot, your balance is $500" = ", your balance is $500".
Proof.
  assert (forall old, contains old ", your balance is $500" = false ->
                      removed old ", your balance is $500" ", your balance is $500")
    as Hnone.
  { intros old H. by apply removed_none, not_contains_occurs. }
  assert (removed "You are BankBot" "You are BankBot, your balance is $500"
                  ", your balance is $500") as H1.
  { apply (removed_step "You are BankBot" "" ", your balance is $500"
                        ", your balance is $500").
    - by apply not_contains_occurs.
    - by apply Hnone. }
  assert (stripped ", your balance is $500" ", your balance is $500") as H4.
  { apply (stripped_strip ", your balance is $500"). }
  split; [done|]. split; [done|].
  exact (proj1 (proj2 cleanup_removes_fragments) _ _ _ _ _
           H1 (Hnone "Answer only" eq_refl)
           (Hnone "Customer Question" eq_refl) H4).
Defined.

Lemma send_message_blank_witness :
  strip (user_input (typed "   " w_start)) = ""
  /\ all_space (user_input (typed "   " w_start))
  /\ send_message E_down (typed "   " w_start) = Returned () (typed "   " w_start).
Proof.
  split; [reflexivity|].
  exact (send_message_blank E_down (typed "   " w_start) eq_refl).
Defined.

Lemma send_message_appends_two_witness :
  strip (user_input w_balance) <> ""
  /\ bot_reply E_echo (strip (user_input w_balance)) w_balance
     = Returned ", your balance is $500"
                (set_posted [full_prompt "my balance"] w_balance)
  /\ exists w'',
      send_message E_echo w_balance = Returned () w''
      /\ transcript w'' 0%nat =
           [m_balance;
            {| role := bot; content := ", your balance is $500"; time := "10:01" |}]
      /\ (forall l, l <> 0%nat -> heap w'' !! l = heap w_balance !! l)
      /\ chat_history w'' = []
      /\ current_chat w'' = 0%nat
      /\ chat_id w'' = "chat-0"
      /\ posted w'' = [full_prompt "my balance"].
Proof.
  assert (strip (user_input w_balance) <> "") as Hne by done.
  split; [done|]. split; [reflexivity|].
  exact (send_message_appends_two E_echo w_balance ", your balance is $500"
           (set_posted [full_prompt "my balance"] w_balance) Hne eq_refl).
Defined.

Lemma send_message_backend_raises_witness :
  classify (strip (user_input w_balance)) = BankingRelated
  /\ get_ollama_response E_down (strip (user_input w_balance)) w_balance
     = Raised Timeout (set_posted [full_prompt "my balance"] w_balance)
  /\ exists w'',
      send_message E_down w_balance = Raised Timeout w''
      /\ get_ollama_response E_down "my balance" (user_stored E_down w_balance)
         = Raised Timeout w''
      /\ transcript (user_stored E_down w_balance) 0%nat = [m_balance]
      /\ transcript w'' 0%nat = [m_balance]
      /\ posted w'' = [full_prompt "my balance"]
      /\ user_input w'' = "  my balance "
      /\ chat_history w'' = [].
Proof.
  split; [reflexivity|]. split; [reflexivity|].
  exact (send_message_backend_raises E_down w_balance Timeout
           (set_posted [full_prompt "my balance"] w_balance) eq_refl eq_refl).
Defined.

Lemma send_message_backend_failure_witness :
  classify (strip (user_input w_balance)) = BankingRelated
  /\ (exists w', send_message E_down w_balance = Raised Timeout w'
                 /\ transcript w' 0%nat = [m_balance])
  /\ (exists w', send_message E_nofield w_balance = Returned () w'
                 /\ transcript w' 0%nat =
                      [m_balance; {| role := bot; content := ""; time := "10:01" |}]).
Proof.
  split; [reflexivity|]. split.
  - exact (proj1 (send_message_backend_failure E_down w_balance eq_refl)
             Timeout eq_refl).
  - exact (proj2 (proj2 (proj2 (proj2
             (send_message_backend_failure E_nofield w_balance eq_refl))))
             eq_refl).
Defined.

Lemma save_chat_archive_witness :
  (transcript w_start (current_chat w_start) = []
   /\ save_chat w_start = Returned () w_start)
  /\ (transcript w_hello (current_chat w_hello) <> []
      /\ exists w' l,
          save_chat w_hello = Returned () w'
          /\ chat_history w' =
               {| id := "chat-0"; title := "Hello"; messages := l |} :: []
          /\ length (chat_history w') = 1%nat
          /\ heap w_hello !! l = None
          /\ transcript w' l = transcript w_hello 0%nat
          /\ transcript w' (current_chat w') = transcript w_hello 0%nat
          /\ current_chat w' = 0%nat
          /\ chat_id w' = "chat-0").
Proof.
  split.
  - split; [reflexivity|]. exact (proj1 (save_chat_archive w_start) eq_refl).
  - assert (transcript w_hello (current_chat w_hello) <> []) as Hne by done.
    split; [done|]. exact (proj2 (save_chat_archive w_hello) Hne).
Defined.



(** C1, as the spec words it, fails: with the endpoint down, the turn on
    a banking question raises and stores no reply; with the field missing,
    the reply stored is the empty text. *)
Lemma send_message_raises_on_timeout :
  classify (strip (user_input w_balance)) = BankingRelated
  /\ send_message E_down w_balance
     = Raised Timeout (final (send_message E_down w_balance))
  /\ transcript (final (send_message E_down w_balance)) (current_chat w_balance)
     = [m_balance]
  /\ transcript (final (send_message E_nofield w_balance)) (current_chat w_balance)
     = [m_balance; {| role := bot; content := ""; time := "10:01" |}].
Proof. by split_and!. Qed.

(** C5, as the spec words it, fails: the trimmed text is not empty and the
    turn appends one message, not two. *)
Lemma send_message_appends_one_on_timeout :
  strip (user_input w_balance) = "my balance"
  /\ returned (send_message E_down w_balance) = false
  /\ length (transcript w_balance (current_chat w_balance)) = 0%nat
  /\ length (transcript (final (send_message E_down w_balance))
                        (current_chat w_balance)) = 1%nat.
Proof. by split_and!. Qed.



End Examples.

(** ** More on the classifier, the clean-up and the title *)
Module TextFacts.
Import PyStr Spec PyStrFacts BankBot ClassifierFacts CleanupFacts.

Lemma occurs_ci_trans kw a b : occurs_ci kw a -> occurs_ci a b -> occurs_ci kw b.
Proof.
  intros (p1 & m1 & q1 & -> & H1) (p2 & m2 & q2 & -> & H2).
  rewrite !lower_app in H2.
  apply lower_split in H2 as (p1' & r & -> & _ & H2).
  apply lower_split in H2 as (m1' & q1' & -> & H2 & _).
  exists (p2 +:+ p1'), m1', (q1' +:+ q2). split.
  - by rewrite !append_assoc.
  - by rewrite H2.
Qed.

Lemma is_greeting_embedded a b :
  occurs_ci a b -> is_greeting a = true -> is_greeting b = true.
Proof.
  intros Hab (kw & Hin & Hkw)%is_greeting_occurs. apply is_greeting_occurs.
  exists kw. split; [done|]. by apply (occurs_ci_trans kw a b).
Qed.

Lemma is_banking_related_embedded a b :
  occurs_ci a b -> is_banking_related a = true -> is_banking_related b = true.
Proof.
  intros Hab (kw & Hin & Hkw)%is_banking_related_occurs.
  apply is_banking_related_occurs.
  exists kw. split; [done|]. by apply (occurs_ci_trans kw a b).
Qed.

(** X1. The classification looks at letters without their case and at
    substrings only: when a text occurs, up to letter case, inside another,
    a greeting stays a greeting and a text that is not off topic stays so. *)
Theorem classify_embedded (a b : string) :
  occurs_ci a b ->
  (classify a = Greeting -> classify b = Greeting)
  /\ (classify a <> OffTopic -> classify b <> OffTopic).
Proof.
  intros Hab. unfold classify.
  destruct (is_greeting a) eqn:Hga.
  - rewrite (is_greeting_embedded a b Hab Hga). by split.
  - destruct (is_banking_related a) eqn:Hba; simpl; [|by split].
    rewrite (is_banking_related_embedded a b Hab Hba).
    split; [done|]. intros _. by destruct (is_greeting b).
Qed.

(** *** The clean-up *)

Lemma cleanup_no_fragment_eq raw :
  Forall (fun p => ~ occurs p raw) blocked_phrases -> cleanup raw = strip raw.
Proof.
  intros H. rewrite cleanup_unfold.
  apply Forall_cons in H as [H1 H]. apply Forall_cons in H as [H2 H].
  apply Forall_cons in H as [H3 _].
  rewrite (replace_nonempty "You are BankBot") by done.
  rewrite scan_none by done.
  rewrite (replace_nonempty "Answer only") by done.
  rewrite scan_none by done.
  rewrite (replace_nonempty "Customer Question") by done.
  by rewrite scan_none.
Qed.

(** X2. A completion in which none of the three fragments occurs is only
    stripped of the white space at its ends. *)
Theorem cleanup_without_fragment (raw : string) :
  (forall p, p ∈ blocked_phrases -> ~ occurs p raw) ->
  cleanup raw = strip raw.
Proof.
  intros H. apply cleanup_no_fragment_eq. apply Forall_forall. exact H.
Qed.

Lemma length_scan old k s :
  (String.length (replace_scan old "" k s) <= String.length s)%nat.
Proof.
  revert k. induction s as [|c s IH]; intros k; [done|].
  cbn [replace_scan]. destruct k as [|k].
  - destruct (startswith old (String c s)).
    + rewrite append_nil_l. specialize (IH (String.length old - 1)%nat).
      simpl. lia.
    + specialize (IH 0%nat). simpl. lia.
  - specialize (IH k). simpl. lia.
Qed.

Lemma length_lstrip s : (String.length (lstrip s) <= String.length s)%nat.
Proof.
  induction s as [|c s IH]; [done|]. simpl.
  destruct (isspace c); simpl; lia.
Qed.

Lemma length_rstrip s : (String.length (rstrip s) <= String.length s)%nat.
Proof.
  induction s as [|c s IH]; [done|]. simpl.
  destruct (rstrip s); [destruct (isspace c)|]; simpl in *; lia.
Qed.

Lemma length_strip s : (String.length (strip s) <= String.length s)%nat.
Proof.
  unfold strip. pose proof (length_rstrip (lstrip s)).
  pose proof (length_lstrip s). lia.
Qed.

Lemma subseq_refl s : subseq s s.
Proof. induction s; by constructor. Qed.

Lemma subseq_trans a b c : subseq a b -> subseq b c -> subseq a c.
Proof.
  intros Hab Hbc. revert a Hab.
  induction Hbc as [|ch b c _ IH|ch b c _ IH]; intros a Hab.
  - done.
  - inversion Hab as [|? a' ? Ha'|? ? ? Ha']; subst.
    + apply subseq_keep. by apply IH.
    + apply subseq_drop. by apply IH.
  - apply subseq_drop. by apply IH.
Qed.

Lemma subseq_scan old k s : subseq (replace_scan old "" k s) s.
Proof.
  revert k. induction s as [|c s IH]; intros k; [constructor|].
  cbn [replace_scan]. destruct k as [|k].
  - destruct (startswith old (String c s)).
    + rewrite append_nil_l. apply subseq_drop, IH.
    + apply subseq_keep, IH.
  - apply subseq_drop, IH.
Qed.

Lemma subseq_replace old s : old <> "" -> subseq (replace old "" s) s.
Proof. intros H. rewrite replace_nonempty by done. apply subseq_scan. Qed.

Lemma subseq_lstrip s : subseq (lstrip s) s.
Proof.
  induction s as [|c s IH]; [constructor|]. simpl.
  destruct (isspace c); [by apply subseq_drop|apply subseq_refl].
Qed.

Lemma subseq_rstrip s : subseq (rstrip s) s.
Proof.
  induction s as [|c s IH]; [constructor|]. simpl.
  destruct (rstrip s) as [|d r] eqn:Hr.
  - destruct (isspace c); [by apply subseq_drop|by apply subseq_keep].
  - by apply subseq_keep.
Qed.

Lemma subseq_strip s : subseq (strip s) s.
Proof. apply (subseq_trans _ (lstrip s)); [apply subseq_rstrip|apply subseq_lstrip]. Qed.

(** X3. The clean-up only deletes characters: its result is the
    completion with some of its characters taken out, the others in their
    order, so it is never longer than the completion; and it neither starts
    nor ends with white space. *)
Theorem cleanup_only_deletes (raw : string) :
  subseq (cleanup raw) raw
  /\ (String.length (cleanup raw) <= String.length raw)%nat
  /\ ~ space_first (cleanup raw)
  /\ ~ space_last (cleanup raw)
  /\ strip (cleanup raw) = cleanup raw.
Proof.
  rewrite cleanup_unfold.
  set (r1 := replace "You are BankBot" "" raw).
  set (r2 := replace "Answer only" "" r1).
  set (r3 := replace "Customer Question" "" r2).
  assert (String.length r1 <= String.length raw)%nat as H1 by apply length_scan.
  assert (String.length r2 <= String.length r1)%nat as H2 by apply length_scan.
  assert (String.length r3 <= String.length r2)%nat as H3 by apply length_scan.
  pose proof (length_strip r3) as H4.
  destruct (stripped_strip r3) as (l & t & _ & _ & _ & Hf & Hl).
  split_and!; [|lia|done|done|].
  - apply (subseq_trans _ r3); [apply subseq_strip|].
    apply (subseq_trans _ r2); [by apply subseq_replace|].
    apply (subseq_trans _ r1); by apply subseq_replace.
  - symmetry. apply stripped_sound. exists "", "".
    rewrite append_nil_l, append_nil_r. by split_and!.
Qed.

(** *** The title *)

Lemma length_take n s : (String.length (take n s) <= n)%nat.
Proof.
  revert s. induction n as [|n IH]; intros [|c s]; simpl; try lia.
  specialize (IH s). lia.
Qed.

Lemma take_prefix n s : exists rest, s = take n s +:+ rest.
Proof.
  revert s. induction n as [|n IH]; intros [|c s]; simpl; try by eexists.
  destruct (IH s) as [rest Hr]. exists rest. by rewrite append_cons, <- Hr.
Qed.

(** X4. The title of a transcript has at most 40 characters.  It is
    "New Chat" when the transcript holds no user's message, and otherwise
    the first 40 characters of the first user's message, whatever comes
    behind it. *)
Theorem generate_chat_title_first_user (msgs : list Message) :
  (String.length (generate_chat_title msgs) <= 40)%nat
  /\ ((Forall (fun m => role m = bot) msgs
       /\ generate_chat_title msgs = "New Chat")
      \/ exists pre m post,
          msgs = pre ++ m :: post
          /\ Forall (fun x => role x = bot) pre
          /\ role m = user
          /\ generate_chat_title msgs = take 40 (content m)
          /\ exists rest, content m = generate_chat_title msgs +:+ rest).
Proof.
  induction msgs as [|m msgs [Hlen IH]].
  - split; [simpl; lia|]. left. by split.
  - cbn [generate_chat_title]. destruct (role m) eqn:Hm.
    + split; [apply length_take|]. right. exists [], m, msgs.
      split_and!; try done. apply take_prefix.
    + split; [done|]. destruct IH as [[Hall Ht]|(pre & x & post & -> & Hpre & Hx & Ht & Hr)].
      * left. split; [by constructor|done].
      * right. exists (m :: pre), x, post. split_and!; try done.
        by constructor.
Qed.

End TextFacts.

(** ** More on the turn *)
Module TurnMore.
Import PyStr Spec PyStrFacts BankBot States ClassifierFacts TurnFacts.

Lemma set_posted_same w : set_posted (posted w ++ []) w = w.
Proof. destruct w. unfold set_posted. simpl. by rewrite List.app_nil_r. Qed.

Lemma bot_reply_final E text w :
  final (bot_reply E text w) = set_posted (posted w ++ requests_of text) w.
Proof.
  rewrite bot_reply_classify. unfold requests_of. destruct (classify text).
  - by rewrite set_posted_same.
  - rewrite get_ollama_response_eq. cbn zeta.
    by destruct (http_post E (length (posted w)) (full_prompt text))
      as [e|[| [[s|]|] |]].
  - by rewrite set_posted_same.
Qed.

Lemma bot_reply_offline E text w :
  classify text <> BankingRelated -> returned (bot_reply E text w) = true.
Proof. intros H. rewrite bot_reply_classify. by destruct (classify text). Qed.

(** The three ways a turn ends. *)
Lemma send_message_cases E w :
  let text := strip (user_input w) in
  let w1 := user_stored E (set_posted (posted w ++ requests_of text) w) in
  (text = "" /\ send_message E w = Returned () w)
  \/ (text <> "" /\ exists e, send_message E w = Raised e w1)
  \/ (text <> "" /\ exists r, send_message E w = Returned () (reply_stored E r w1)).
Proof.
  intros text w1. destruct (decide (text = "")) as [He|Hne].
  - left. split; [done|]. by apply send_message_blank_eq.
  - right. rewrite send_message_frame by done. fold text.
    pose proof (bot_reply_final E text w) as Hf. fold text in Hf.
    destruct (bot_reply E text w) as [r w'|e w']; simpl in Hf; subst w'.
    + right. split; [done|]. by exists r.
    + left. split; [done|]. by exists e.
Qed.

Lemma transcript_user_stored E w :
  transcript (user_stored E w) (current_chat w)
  = transcript w (current_chat w)
    ++ [{| role := user; content := strip (user_input w); time := now E (ticks w) |}].
Proof. apply transcript_insert_eq. Qed.

Lemma transcript_reply_stored E r w :
  transcript (reply_stored E r w) (current_chat w)
  = transcript w (current_chat w)
    ++ [{| role := bot; content := r; time := now E (ticks w) |}].
Proof. unfold reply_stored, transcript. simpl. by rewrite lookup_insert_eq. Qed.

(** X5. A turn, however it ends, writes to one list object, the active
    transcript, and only at its end: the archive, the active reference and
    the identifier are as before, every other list object is untouched,
    and the active transcript is the old one followed by nothing, by the
    user's message, or by the user's message and a reply. *)
Theorem send_message_touches_active_only (E : Env) (w : World) :
  let w' := final (send_message E w) in
  let cur := current_chat w in
  let um := {| role := user; content := strip (user_input w);
               time := now E (ticks w) |} in
  chat_history w' = chat_history w
  /\ current_chat w' = cur
  /\ chat_id w' = chat_id w
  /\ drawn w' = drawn w
  /\ (forall l, l <> cur -> heap w' !! l = heap w !! l)
  /\ exists added,
      transcript w' cur = transcript w cur ++ added
      /\ (added = [] \/ added = [um]
          \/ exists r, added = [um; {| role := bot; content := r;
                                       time := now E (S (ticks w)) |}]).
Proof.
  intros w' cur um. subst w'.
  destruct (send_message_cases E w) as [[_ ->]|[[_ [e ->]]|[_ [r ->]]]]; cbn [final].
  - split_and!; try done. exists []. split; [by rewrite List.app_nil_r|by left].
  - split_and!; try done.
    + intros l Hl. simpl. by rewrite lookup_insert_ne.
    + exists [um]. split; [|by right; left].
      apply (transcript_user_stored E (set_posted _ w)).
  - split_and!; try done.
    + intros l Hl. simpl. by rewrite !lookup_insert_ne.
    + eexists. split; [|right; right; by exists r].
      unfold reply_stored, user_stored, transcript. simpl.
      rewrite !lookup_insert_eq. simpl. by rewrite <- List.app_assoc.
Qed.

(** X6. A turn posts one request when its trimmed text is classified
    banking related, and none otherwise; the prompt of the request holds
    the trimmed text as it is. *)
Theorem send_message_requests (E : Env) (w : World) :
  let text := strip (user_input w) in
  posted (final (send_message E w))
  = posted w ++ match classify text with
                | BankingRelated => [full_prompt text]
                | _ => []
                end
  /\ occurs text (full_prompt text).
Proof.
  intros text. split.
  - change (posted (final (send_message E w)) = posted w ++ requests_of text).
    destruct (send_message_cases E w) as [[He ->]|[[_ [e ->]]|[_ [r ->]]]];
      cbn [final]; try done.
    fold text in He. unfold requests_of. rewrite He. simpl.
    by rewrite List.app_nil_r.
  - unfold full_prompt.
    exists (nl +:+ system_prompt +:+ nl +:+ nl +:+ "Customer Question:" +:+ nl),
           (nl +:+ nl +:+ "BankBot Answer:" +:+ nl).
    by rewrite !append_assoc.
Qed.

(** X7. Greetings and off-topic texts are answered without the endpoint:
    the turn returns, whatever the endpoint would do. *)
Theorem send_message_offline (E : Env) (w : World) :
  classify (strip (user_input w)) <> BankingRelated ->
  returned (send_message E w) = true
  /\ posted (final (send_message E w)) = posted w.
Proof.
  intros Hc. destruct (decide (strip (user_input w) = "")) as [He|Hne].
  - by rewrite send_message_blank_eq.
  - rewrite send_message_frame by done.
    pose proof (bot_reply_offline E _ w Hc) as Hr.
    pose proof (bot_reply_final E (strip (user_input w)) w) as Hf.
    unfold requests_of in Hf.
    destruct (bot_reply E (strip (user_input w)) w) as [r w'|e w']; [|done].
    simpl in Hf. subst w'. split; [done|]. simpl.
    destruct (classify (strip (user_input w))); [|done|];
      by rewrite List.app_nil_r.
Qed.

(** X8. When a turn returns, the text box is empty or blank, so pressing
    the button again without typing changes nothing: no message is stored
    twice. *)
Theorem send_message_twice (E : Env) (w : World) :
  returned (send_message E w) = true ->
  send_message E (final (send_message E w))
  = Returned () (final (send_message E w)).
Proof.
  intros Hr.
  destruct (send_message_cases E w) as [[He Hs]|[[_ [e Hs]]|[_ [r Hs]]]];
    rewrite Hs in Hr |- *; cbn [final].
  - by rewrite Hs.
  - done.
  - by apply send_message_blank_eq.
Qed.

(** X9. When a turn raises, the text stays in the box and the user's
    message stays in the transcript; pressing the button again stores the
    user's message a second time, behind the first. *)
Theorem send_message_retry (E : Env) (w : World) (e : exn) (w1 : World) :
  send_message E w = Raised e w1 ->
  let cur := current_chat w in
  let text := strip (user_input w) in
  user_input w1 = user_input w
  /\ exists added,
      transcript (final (send_message E w1)) cur
      = transcript w cur
        ++ [{| role := user; content := text; time := now E (ticks w) |};
            {| role := user; content := text; time := now E (S (ticks w)) |}]
        ++ added.
Proof.
  intros Hs cur text.
  destruct (send_message_cases E w) as [[_ H]|[[Hne [e' H]]|[_ [r H]]]];
    rewrite H in Hs; [done| |done].
  injection Hs as _ <-. split; [done|].
  set (v := user_stored E (set_posted (posted w ++ requests_of (strip (user_input w))) w)).
  assert (transcript v cur = transcript w cur
            ++ [{| role := user; content := text; time := now E (ticks w) |}])
    as Hv by apply (transcript_user_stored E (set_posted _ w)).
  destruct (send_message_cases E v) as [[He' _]|[[_ [e'' ->]]|[_ [r ->]]]];
    cbn [final].
  - done.
  - exists []. rewrite List.app_nil_r.
    etrans; [apply (transcript_user_stored E (set_posted _ v))|].
    change (transcript (set_posted _ v) _) with (transcript v cur) at 1.
    rewrite Hv, <- List.app_assoc. reflexivity.
  - eexists [_].
    etrans; [apply (transcript_reply_stored E r (user_stored E (set_posted _ v)))|].
    etrans; [apply (f_equal (fun x => x ++ _)),
               (transcript_user_stored E (set_posted _ v))|].
    change (transcript (set_posted _ v) _) with (transcript v cur) at 1.
    rewrite Hv, <- !List.app_assoc. reflexivity.
Qed.

(** X20. [get_ollama_response] posts one request, the prompt built from
    the question, and leaves the rest of the state alone, however it ends.
    It returns exactly when the endpoint answers with a JSON object whose
    ["response"] is a string or is missing; a missing one reads as the
    empty text. *)
Theorem get_ollama_response_returns (E : Env) (q : string) (w : World) :
  final (get_ollama_response E q w)
  = set_posted (posted w ++ [full_prompt q]) w
  /\ (returned (get_ollama_response E q w) = true
      <-> exists field,
          http_post E (length (posted w)) (full_prompt q)
          = Replied (JsonObject field)
          /\ field <> Some JOther)
  /\ (http_post E (length (posted w)) (full_prompt q) = Replied (JsonObject None)
      -> get_ollama_response E q w
         = Returned "" (set_posted (posted w ++ [full_prompt q]) w)).
Proof.
  rewrite get_ollama_response_eq. cbn zeta.
  destruct (http_post E (length (posted w)) (full_prompt q))
    as [e|[| [[s|]|] |]]; cbn [final returned]; split_and!; try done.
  - split; [done|]. by intros (f & ? & _).
  - split; [done|]. by intros (f & ? & _).
  - split; [intros _|done]. by eexists.
  - split; [done|]. intros (f & Hf & Hne). by simplify_eq.
  - split; [intros _|done]. by eexists.
  - split; [done|]. by intros (f & ? & _).
Qed.

End TurnMore.

(** ** More on the conversation store *)
Module StoreMore.
Import PyStr BankBot States PyStrFacts TurnFacts TurnMore StoreFacts.

Lemma reset_chat_eq E w :
  reset_chat E w =
  let l := fresh (dom (heap w)) in
  Returned ()
    (set_user_input ""
       (set_chat_id (uuid4 E (drawn w))
          (set_drawn (S (drawn w))
             (set_current_chat l (set_heap (<[l := []]> (heap w)) w))))).
Proof. reflexivity. Qed.

Lemma fresh_not_in (h : gmap loc (list Message)) l :
  is_Some (h !! l) -> l <> fresh (dom h).
Proof.
  intros Hl ->. apply elem_of_dom in Hl. by apply (is_fresh (dom h)).
Qed.

Lemma fresh_not_stored w l : is_Some (heap w !! l) -> l <> fresh (dom (heap w)).
Proof. apply fresh_not_in. Qed.

(** X10. "New Chat" makes a new, empty list object the active transcript
    and draws a new identifier.  The new list is shared with nothing: it is
    neither the list that was active nor the list of an archive entry.  The
    archive and every list object there was are left as they were; the chat
    that was active is not archived. *)
Theorem reset_chat_fresh (E : Env) (w : World) :
  wf w ->
  let w' := final (reset_chat E w) in
  returned (reset_chat E w) = true
  /\ transcript w' (current_chat w') = []
  /\ chat_id w' = uuid4 E (drawn w)
  /\ user_input w' = ""
  /\ chat_history w' = chat_history w
  /\ current_chat w' <> current_chat w
  /\ (forall c, c ∈ chat_history w -> messages c <> current_chat w')
  /\ (forall l, is_Some (heap w !! l) -> heap w' !! l = heap w !! l).
Proof.
  intros [Hc Hh] w'. subst w'. rewrite reset_chat_eq. cbn zeta. cbn [final returned].
  split_and!; try done.
  - unfold transcript. simpl. by rewrite lookup_insert_eq.
  - simpl. intros Heq. by apply (fresh_not_stored w _ Hc).
  - intros c Hin. simpl. by apply fresh_not_stored, Hh.
  - intros l Hl. simpl. rewrite lookup_insert_ne; [done|].
    intros Heq. by apply (fresh_not_stored w l Hl).
Qed.

(** X11. "New Chat" followed by "Save Chat" archives nothing: the new
    transcript is empty. *)
Theorem save_after_reset (E : Env) (w : World) :
  save_chat (final (reset_chat E w)) = Returned () (final (reset_chat E w)).
Proof.
  rewrite save_chat_eq, reset_chat_eq. cbn zeta. cbn [final].
  unfold transcript. simpl. by rewrite lookup_insert_eq.
Qed.

(** X12. A chat that is saved under an identifier no entry carries yet, then
    left by "New Chat", comes back by its button: the identifier and the
    transcript are the saved ones. *)
Theorem save_reset_select (E : Env) (w : World) :
  transcript w (current_chat w) <> [] ->
  (forall c, c ∈ chat_history w -> id c <> chat_id w) ->
  let w1 := final (save_chat w) in
  let w2 := final (reset_chat E w1) in
  let w3 := final (select_chat (chat_id w) w2) in
  chat_id w3 = chat_id w
  /\ transcript w3 (current_chat w3) = transcript w (current_chat w)
  /\ transcript w2 (current_chat w2) = [].
Proof.
  intros Hne Hid w1 w2 w3.
  assert (w1 = archived w) as Hw1.
  { unfold w1. rewrite save_chat_eq. by destruct (transcript w (current_chat w)). }
  set (l := fresh (dom (heap w))).
  set (c := {| id := chat_id w;
               title := generate_chat_title (transcript w (current_chat w));
               messages := l |}).
  assert (final (select_chat (chat_id w) w2) = selected c w2) as Hsel.
  { apply (select_chat_front (chat_id w) c (chat_history w)); [|done].
    unfold w2. rewrite reset_chat_eq. cbn zeta. cbn [final]. simpl.
    by rewrite Hw1. }
  unfold w3. rewrite Hsel. split_and!; try done.
  - unfold w2. rewrite reset_chat_eq, Hw1. cbn zeta. cbn [final].
    unfold selected, archived, transcript. simpl.
    rewrite lookup_insert_ne.
    + by rewrite lookup_insert_eq.
    + fold l. intros Heq. symmetry in Heq. revert Heq. apply fresh_not_in.
      by rewrite lookup_insert_eq.
  - unfold w2. rewrite reset_chat_eq. cbn zeta. cbn [final].
    unfold transcript. simpl. by rewrite lookup_insert_eq.
Qed.

(** What a turn leaves alone, however it ends. *)
Lemma send_message_outside E w :
  chat_history (final (send_message E w)) = chat_history w
  /\ current_chat (final (send_message E w)) = current_chat w
  /\ chat_id (final (send_message E w)) = chat_id w
  /\ drawn (final (send_message E w)) = drawn w
  /\ forall l, l <> current_chat w ->
               heap (final (send_message E w)) !! l = heap w !! l.
Proof.
  destruct (send_message_cases E w) as [[_ ->]|[[_ [e ->]]|[_ [r ->]]]];
    cbn [final]; split_and!; try done.
  - intros l Hl. simpl. by rewrite lookup_insert_ne.
  - intros l Hl. simpl. by rewrite !lookup_insert_ne.
Qed.

(** X13. The archive holds a copy: a turn on the chat that was just saved,
    whatever is typed and however the turn ends, leaves the transcript of
    the new entry as it was saved. *)
Theorem turn_after_save (E : Env) (w : World) (s : string) :
  wf w ->
  transcript w (current_chat w) <> [] ->
  let w1 := final (save_chat w) in
  let w2 := final (send_message E (set_user_input s w1)) in
  exists c,
    chat_history w2 = c :: chat_history w
    /\ id c = chat_id w
    /\ messages c <> current_chat w2
    /\ transcript w2 (messages c) = transcript w (current_chat w).
Proof.
  intros [Hc Hh] Hne w1 w2.
  assert (w1 = archived w) as Hw1.
  { unfold w1. rewrite save_chat_eq. by destruct (transcript w (current_chat w)). }
  destruct (send_message_outside E (set_user_input s w1)) as (H1 & H2 & _ & _ & H5).
  fold w2 in H1, H2, H5. rewrite Hw1 in H1, H2, H5. simpl in H1, H2, H5.
  assert (fresh (dom (heap w)) <> current_chat w) as Hl.
  { intros Heq. by apply (fresh_not_stored w _ Hc). }
  eexists. split; [exact H1|]. split; [done|]. simpl. split; [by rewrite H2|].
  unfold transcript. rewrite (H5 _ Hl). by rewrite lookup_insert_eq.
Qed.

(** A pass selects nothing, or it selects an entry whose button was
    pressed. *)
Lemma sidebar_effect clicked seen chats w :
  final (sidebar_chat_selection clicked seen chats w) = w
  \/ exists c, c ∈ chats /\ clicked (id c) = true
               /\ final (sidebar_chat_selection clicked seen chats w) = selected c w.
Proof.
  revert seen w. induction chats as [|c chats IH]; intros seen w; [by left|].
  rewrite sidebar_cons. case_bool_decide as Hseen; [by left|].
  destruct (clicked (id c)) eqn:Hc.
  - right. destruct (IH (id c :: seen) (selected c w)) as [Hf|(c' & Hin & Hc' & Hf)].
    + exists c. split; [apply list_elem_of_here|]. by split.
    + exists c'. split; [by apply list_elem_of_further|]. by split.
  - destruct (IH (id c :: seen) w) as [Hf|(c' & Hin & Hc' & Hf)]; [by left|].
    right. exists c'. split; [by apply list_elem_of_further|]. by split.
Qed.

Lemma button_drawn_elem chats c : button_drawn chats c -> c ∈ chats.
Proof.
  intros (pre & post & -> & _). apply elem_of_app. right. apply list_elem_of_here.
Qed.

(** The button of a drawn entry selects that entry. *)
Lemma select_chat_drawn w c :
  button_drawn (chat_history w) c ->
  final (select_chat (id c) w) = selected c w.
Proof.
  intros (pre & post & Hh & Hnd). rewrite select_chat_eq, Hh.
  rewrite map_app in Hnd. apply NoDup_app in Hnd as (Hpre & Hdis & _).
  apply sidebar_first; [done|apply not_elem_of_nil|done|].
  intros x Hx. split; [|apply not_elem_of_nil].
  intros Heq. apply (Hdis (id x)); [by apply list_elem_of_fmap_2|].
  rewrite Heq. apply list_elem_of_here.
Qed.

(** X14. Pressing the button of an archive entry the pass draws makes the
    entry's key the active identifier and the entry's list object the
    active transcript, by reference; the archive, the list objects, the
    text box and the record of requests are untouched.  The pass returns
    exactly when no key repeats in the archive; when one does, it raises the
    error of the repeated key, behind the selection. *)
Theorem select_chat_loads (w : World) (c : Chat) :
  button_drawn (chat_history w) c ->
  let w' := final (select_chat (id c) w) in
  chat_id w' = id c
  /\ current_chat w' = messages c
  /\ chat_history w' = chat_history w
  /\ heap w' = heap w
  /\ user_input w' = user_input w
  /\ posted w' = posted w
  /\ (returned (select_chat (id c) w) = true <-> NoDup (map id (chat_history w)))
  /\ (forall e v, select_chat (id c) w = Raised e v -> e = DuplicateElementKey).
Proof.
  intros Hd w'. subst w'. rewrite (select_chat_drawn w c Hd).
  split_and!; try done.
  - apply select_chat_returns.
  - intros e v Hr. rewrite select_chat_eq in Hr. by apply sidebar_raises in Hr.
Qed.

(** X21. "Save Chat" pressed twice on a transcript that is not empty puts
    two entries in front of the archive: the same identifier, the same
    title, two list objects that hold the same transcript.  Nothing looks
    for an entry the chat already has. *)
Theorem save_chat_twice (w : World) :
  transcript w (current_chat w) <> [] ->
  let w2 := final (save_chat (final (save_chat w))) in
  exists c1 c2,
    chat_history w2 = c2 :: c1 :: chat_history w
    /\ id c1 = chat_id w /\ id c2 = chat_id w
    /\ title c1 = title c2
    /\ messages c1 <> messages c2
    /\ transcript w2 (messages c1) = transcript w (current_chat w)
    /\ transcript w2 (messages c2) = transcript w (current_chat w).
Proof.
  intros Hne w2.
  set (T := transcript w (current_chat w)) in *.
  assert (final (save_chat w) = archived w) as H1.
  { rewrite save_chat_eq. fold T. by destruct T. }
  assert (transcript (archived w) (current_chat (archived w)) = T) as HT.
  { unfold archived, transcript. simpl.
    destruct (decide (fresh (dom (heap w)) = current_chat w)) as [Heq|Hl].
    - by rewrite Heq, lookup_insert_eq.
    - by rewrite lookup_insert_ne. }
  set (l1 := fresh (dom (heap w))).
  assert (w2 = archived (archived w)) as H2.
  { unfold w2. rewrite H1, save_chat_eq, HT. by destruct T. }
  set (l2 := fresh (dom (heap (archived w)))).
  assert (l1 <> l2) as Hl.
  { apply fresh_not_in. unfold archived. simpl. by rewrite lookup_insert_eq. }
  exists {| id := chat_id w; title := generate_chat_title T; messages := l1 |},
         {| id := chat_id w; title := generate_chat_title T; messages := l2 |}.
  rewrite H2. cbn [id title messages].
  assert (heap (archived (archived w)) = <[l2 := T]> (<[l1 := T]> (heap w))) as Hh.
  { unfold archived at 1. cbn zeta. cbn [heap set_chat_history set_heap].
    by rewrite HT. }
  split_and!; try done.
  - unfold archived at 1. cbn zeta. cbn [chat_history set_chat_history].
    by rewrite HT.
  - unfold transcript. by rewrite Hh, lookup_insert_ne, lookup_insert_eq.
  - unfold transcript. by rewrite Hh, lookup_insert_eq.
Qed.

(** X22. A chat loaded from the archive by its button is continued in
    place: a turn with a text that is not blank, however it ends, appends to
    the list object of the loaded entry, so the archive entry reads the
    user's new message although nothing was saved. *)
Theorem turn_after_load (E : Env) (w : World) (c : Chat) (s : string) :
  button_drawn (chat_history w) c ->
  strip s <> "" ->
  let w1 := final (select_chat (id c) w) in
  let w2 := final (send_message E (set_user_input s w1)) in
  exists c' added,
    c' ∈ chat_history w /\ id c' = id c
    /\ c' = c
    /\ chat_history w2 = chat_history w
    /\ current_chat w2 = messages c'
    /\ transcript w2 (messages c')
       = transcript w (messages c')
         ++ {| role := user; content := strip s; time := now E (ticks w) |}
            :: added.
Proof.
  intros Hd Hs w1 w2. subst w2 w1. rewrite (select_chat_drawn w c Hd).
  pose proof (button_drawn_elem _ _ Hd) as Hin.
  set (v := set_user_input s (selected c w)).
  destruct (send_message_cases E v) as [[He _]|[[_ [e ->]]|[_ [r ->]]]];
    cbn [final].
  - done.
  - exists c, []. split_and!; try done.
    apply (transcript_user_stored E (set_posted _ v)).
  - exists c, [{| role := bot; content := r; time := now E (S (ticks w)) |}].
    split_and!; try done.
    unfold reply_stored, user_stored, transcript. simpl.
    rewrite !lookup_insert_eq. simpl. by rewrite <- List.app_assoc.
Qed.

End StoreMore.

(** ** What every run of the script keeps *)
Module ScriptFacts.
Import PyStr Spec PyStrFacts BankBot States Script.
Import TurnFacts TurnMore StoreFacts StoreMore Invariant TextFacts.

Lemma strip_strip s : strip (strip s) = strip s.
Proof.
  symmetry. apply stripped_sound.
  destruct (stripped_strip s) as (l & t & _ & _ & _ & Hf & Hl).
  exists "", "". rewrite append_nil_l, append_nil_r. by split_and!.
Qed.

(** *** The shape of transcripts *)

Lemma shaped_snoc_user b msgs m :
  shaped b msgs -> role m = user -> user_text_ok m -> shaped b (msgs ++ [m]).
Proof.
  intros H Hm Hok. revert b H. induction msgs as [|x msgs IH]; intros b H.
  - simpl. by rewrite Hm.
  - simpl in *. destruct (role x); destruct H as [H1 H2]; split; auto.
Qed.

Lemma shaped_snoc_bot b msgs um bm :
  shaped b (msgs ++ [um]) -> role um = user -> role bm = bot ->
  shaped b (msgs ++ [um; bm]).
Proof.
  intros H Hu Hb. revert b H. induction msgs as [|x msgs IH]; intros b H.
  - simpl in *. rewrite Hu in *. rewrite Hb. by destruct H.
  - simpl in *. destruct (role x); destruct H as [H1 H2]; split; auto.
Qed.

Lemma shaped_first msgs m rest :
  shaped false msgs -> msgs = m :: rest -> role m = user /\ user_text_ok m.
Proof. intros H ->. simpl in H. destruct (role m); by destruct H. Qed.

Lemma transcript_shaped w l : store_shaped w -> shaped false (transcript w l).
Proof.
  intros H. unfold transcript. destruct (heap w !! l) as [msgs|] eqn:Hl; [|done].
  by apply (H l).
Qed.

Lemma store_shaped_insert w w' l xs :
  heap w' = <[l := xs]> (heap w) ->
  store_shaped w -> shaped false xs -> store_shaped w'.
Proof.
  unfold store_shaped. intros -> H Hxs. by apply map_Forall_insert_2.
Qed.

Lemma store_shaped_same w w' : heap w' = heap w -> store_shaped w -> store_shaped w'.
Proof. unfold store_shaped. by intros ->. Qed.

Lemma user_text_ok_stored E w :
  strip (user_input w) <> "" ->
  user_text_ok {| role := user; content := strip (user_input w);
                  time := now E (ticks w) |}.
Proof. intros H. split; [done|]. apply strip_strip. Qed.

Lemma store_shaped_user_stored E w :
  strip (user_input w) <> "" -> store_shaped w -> store_shaped (user_stored E w).
Proof.
  intros Hne H.
  eapply (store_shaped_insert w (user_stored E w) (current_chat w));
    [reflexivity|done|].
  apply shaped_snoc_user; [by apply transcript_shaped|done|].
  by apply user_text_ok_stored.
Qed.

Lemma store_shaped_send E w :
  store_shaped w -> store_shaped (final (send_message E w)).
Proof.
  intros H.
  destruct (send_message_cases E w) as [[_ ->]|[[Hne [e ->]]|[Hne [r ->]]]];
    cbn [final]; [done| |].
  - by apply (store_shaped_user_stored E (set_posted _ w)).
  - set (v := set_posted (posted w ++ requests_of (strip (user_input w))) w).
    eapply (store_shaped_insert (user_stored E v) _ (current_chat w));
      [reflexivity| |].
    + by apply (store_shaped_user_stored E v).
    + change (transcript (user_stored E v) (current_chat (user_stored E v)))
        with (transcript (user_stored E v) (current_chat v)).
      rewrite (transcript_user_stored E v), <- List.app_assoc.
      apply shaped_snoc_bot; [|done..].
      apply shaped_snoc_user; [by apply transcript_shaped|done|].
      by apply (user_text_ok_stored E v).
Qed.

Lemma select_chat_final i w :
  final (select_chat i w) = w
  \/ exists c, c ∈ chat_history w /\ id c = i /\ final (select_chat i w) = selected c w.
Proof.
  rewrite select_chat_eq.
  destruct (sidebar_effect (fun key => bool_decide (key = i)) [] (chat_history w) w)
    as [Hf|(c & Hin & Hc & Hf)]; [by left|].
  right. exists c. apply bool_decide_eq_true in Hc. by split_and!.
Qed.

(** The loop of a run in which no button of the history is pressed writes
    nothing, whether it returns or raises. *)
Lemma sidebar_pass_no_click w : final (sidebar_pass no_click w) = w.
Proof.
  change (final (sidebar_chat_selection no_click [] (chat_history w) w) = w).
  by apply sidebar_no_more.
Qed.

Lemma final_then_pass (m : M unit) w :
  final (bind m (fun _ => sidebar_pass no_click) w) = final (m w).
Proof.
  unfold bind. destruct (m w) as [[] w'|e w']; [|done].
  apply sidebar_pass_no_click.
Qed.

(** The state a run of the script ends in. *)
Lemma step_eq E w ev :
  step E w ev =
  match ev with
  | TypeText s => set_user_input s w
  | ClickSend => final (send_message E w)
  | ClickNewChat => final (reset_chat E w)
  | ClickSaveChat => final (save_chat w)
  | ClickChat key => final (select_chat key w)
  end.
Proof.
  destruct ev; unfold step, handle; try apply final_then_pass; done.
Qed.

Lemma save_chat_final w :
  final (save_chat w) = w
  \/ (transcript w (current_chat w) <> [] /\ final (save_chat w) = archived w).
Proof.
  rewrite save_chat_eq. destruct (transcript w (current_chat w)); [by left|by right].
Qed.

Lemma store_shaped_step E w ev : store_shaped w -> store_shaped (step E w ev).
Proof.
  intros H. rewrite step_eq; destruct ev as [s| | | |key].
  - done.
  - by apply store_shaped_send.
  - rewrite reset_chat_eq. cbn zeta. cbn [final].
    by eapply (store_shaped_insert w _ (fresh (dom (heap w))) []); [reflexivity|..].
  - destruct (save_chat_final w) as [->|[_ ->]]; [done|].
    eapply (store_shaped_insert w _ (fresh (dom (heap w)))); [reflexivity|done|].
    by apply transcript_shaped.
  - destruct (select_chat_final key w) as [->|(c & _ & _ & ->)]; [done|].
    by apply (store_shaped_same w).
Qed.

(** *** References *)

Lemma wf_step E w ev : wf w -> wf (step E w ev).
Proof.
  intros H. rewrite step_eq; destruct ev as [s| | | |key].
  - by apply wf_set_user_input.
  - by apply wf_send_message.
  - by apply wf_reset_chat.
  - by apply wf_save_chat.
  - by apply wf_select_chat.
Qed.

(** *** Titles *)

Lemma titled_grow w w' c added :
  transcript w' (messages c) = transcript w (messages c) ++ added ->
  titled w c -> titled w' c.
Proof.
  intros Hg (m & rest & Ht & Hm & Htitle). exists m, (rest ++ added).
  by rewrite Hg, Ht.
Qed.

Lemma titled_same w w' c :
  heap w' !! messages c = heap w !! messages c -> titled w c -> titled w' c.
Proof.
  intros Hh. apply (titled_grow w w' c []).
  unfold transcript. by rewrite Hh, List.app_nil_r.
Qed.

Lemma send_message_grows E w l :
  exists added,
    transcript (final (send_message E w)) l = transcript w l ++ added.
Proof.
  destruct (decide (l = current_chat w)) as [->|Hl].
  - destruct (send_message_cases E w) as [[_ ->]|[[_ [e ->]]|[_ [r ->]]]];
      cbn [final].
    + exists []. by rewrite List.app_nil_r.
    + eexists. apply (transcript_user_stored E (set_posted _ w)).
    + eexists. unfold reply_stored, user_stored, transcript. simpl.
      rewrite !lookup_insert_eq. simpl. by rewrite <- List.app_assoc.
  - destruct (send_message_outside E w) as (_ & _ & _ & _ & H).
    exists []. unfold transcript. by rewrite (H l Hl), List.app_nil_r.
Qed.

Lemma archive_titled_step E w ev :
  wf w -> store_shaped w -> archive_titled w -> archive_titled (step E w ev).
Proof.
  intros [Hc Hh] Hs Ht. unfold archive_titled in *.
  rewrite step_eq; destruct ev as [s| | | |key].
  - done.
  - destruct (send_message_outside E w) as (-> & _).
    eapply Forall_impl; [exact Ht|]. intros c Hc'.
    destruct (send_message_grows E w (messages c)) as [added Ha].
    by apply (titled_grow w _ c added).
  - rewrite reset_chat_eq. cbn zeta. cbn [final]. simpl.
    apply Forall_forall. intros c Hin.
    apply (titled_same w); [|by apply (proj1 (Forall_forall _ _) Ht)].
    simpl. rewrite lookup_insert_ne; [done|].
    intros Heq. by apply (fresh_not_stored w (messages c)); [apply Hh|].
  - destruct (save_chat_final w) as [->|[Hne ->]]; [done|].
    unfold archived. simpl. apply Forall_cons. split.
    + destruct (transcript w (current_chat w)) as [|m rest] eqn:HT; [done|].
      destruct (shaped_first (m :: rest) m rest) as [Hm _]; [|done|].
      { rewrite <- HT. by apply transcript_shaped. }
      exists m, rest. unfold transcript. simpl. rewrite lookup_insert_eq.
      simpl. by rewrite Hm.
    + apply Forall_forall. intros c Hin.
      apply (titled_same w); [|by apply (proj1 (Forall_forall _ _) Ht)].
      simpl. rewrite lookup_insert_ne; [done|].
      intros Heq. by apply (fresh_not_stored w (messages c)); [apply Hh|].
  - destruct (select_chat_final key w) as [->|(c & _ & _ & ->)]; [done|].
    simpl. eapply Forall_impl; [exact Ht|]. intros c' Hc'.
    by apply (titled_same w).
Qed.

(** *** Identifiers *)

Lemma is_drawn_mono E w w' i :
  (drawn w <= drawn w')%nat -> is_drawn E w i -> is_drawn E w' i.
Proof. intros Hle (k & Hk & ->). exists k. split; [lia|done]. Qed.

Lemma ids_drawn_step E w ev : ids_drawn E w -> ids_drawn E (step E w ev).
Proof.
  intros [Hid Hh]. rewrite step_eq; destruct ev as [s| | | |key].
  - done.
  - destruct (send_message_outside E w) as (H1 & _ & H3 & H4 & _).
    split.
    + rewrite H3. apply (is_drawn_mono E w); [lia|done].
    + rewrite H1. eapply Forall_impl; [exact Hh|]. intros c.
      apply is_drawn_mono. lia.
  - rewrite reset_chat_eq. cbn zeta. cbn [final]. split.
    + exists (drawn w). simpl. split; [lia|done].
    + simpl. eapply Forall_impl; [exact Hh|]. intros c.
      apply is_drawn_mono. simpl. lia.
  - destruct (save_chat_final w) as [->|[_ ->]]; [done|]. split; [done|].
    unfold archived. simpl. apply Forall_cons. split; [done|].
    eapply Forall_impl; [exact Hh|]. by intros c.
  - destruct (select_chat_final key w) as [->|(c & Hin & _ & ->)]; [done|].
    split; [|done]. simpl.
    by apply (proj1 (Forall_forall _ _) Hh c Hin).
Qed.

(** *** The invariant *)

Lemma inv_init E : inv E (init E).
Proof.
  split_and!.
  - apply wf_init.
  - unfold store_shaped, init. simpl. by apply map_Forall_singleton.
  - constructor.
  - split; [|constructor]. exists 0%nat. simpl. split; [lia|done].
Qed.

Lemma inv_step E w ev : inv E w -> inv E (step E w ev).
Proof.
  intros (H1 & H2 & H3 & H4). split_and!.
  - by apply wf_step.
  - by apply store_shaped_step.
  - by apply archive_titled_step.
  - by apply ids_drawn_step.
Qed.

Lemma inv_run E evs w : inv E w -> inv E (run E evs w).
Proof.
  revert w. induction evs as [|ev evs IH]; intros w H; [done|].
  simpl. by apply IH, inv_step.
Qed.

Lemma take_nonempty n s : s <> "" -> take (S n) s <> "".
Proof. by destruct s. Qed.

(** X15. In every state a run of the script reaches, no reference dangles:
    the active transcript and the transcript of every archive entry are
    list objects of the store. *)
Theorem reachable_no_dangling (E : Env) (evs : list Event) :
  let w := run E evs (init E) in
  is_Some (heap w !! current_chat w)
  /\ Forall (fun c => is_Some (heap w !! messages c)) (chat_history w).
Proof.
  intros w. destruct (inv_run E evs (init E) (inv_init E)) as ([H1 H2] & _).
  split; [done|]. by apply Forall_forall.
Qed.

(** X16. In every state a run of the script reaches, every transcript, the
    active one and the archived ones, has the shape the turns give it: it
    does not start with a reply, a reply comes right behind a user's
    message, and a user's message is a text that is not empty and has no
    white space at its ends. *)
Theorem reachable_transcripts_shaped (E : Env) (evs : list Event) :
  let w := run E evs (init E) in
  map_Forall (fun _ msgs => shaped false msgs) (heap w)
  /\ shaped false (transcript w (current_chat w))
  /\ Forall (fun c => shaped false (transcript w (messages c))) (chat_history w).
Proof.
  intros w. destruct (inv_run E evs (init E) (inv_init E)) as (_ & H & _).
  split; [done|]. split; [by apply transcript_shaped|].
  apply Forall_forall. intros c _. by apply transcript_shaped.
Qed.

(** X17. In every state a run of the script reaches, the title of an
    archive entry is the first 40 characters of the first message of the
    entry's transcript, which is a user's, also after the archived chat was
    loaded and continued: it is what [generate_chat_title] gives on the
    transcript the entry refers to now.  The title is not empty and has at
    most 40 characters. *)
Theorem reachable_titles (E : Env) (evs : list Event) :
  let w := run E evs (init E) in
  Forall (fun c => titled w c
                   /\ title c = generate_chat_title (transcript w (messages c))
                   /\ title c <> ""
                   /\ (String.length (title c) <= 40)%nat)
         (chat_history w).
Proof.
  intros w. destruct (inv_run E evs (init E) (inv_init E)) as (_ & Hs & Ht & _).
  fold w in Hs, Ht. eapply Forall_impl; [exact Ht|]. intros c Hc.
  split; [done|]. destruct Hc as (m & rest & HT & Hm & Htitle).
  destruct (shaped_first (m :: rest) m rest) as [_ [Hne _]]; [|done|].
  { rewrite <- HT. by apply transcript_shaped. }
  rewrite Htitle. split_and!.
  - rewrite HT. cbn [generate_chat_title]. by rewrite Hm.
  - by apply take_nonempty.
  - apply length_take.
Qed.

(** X18. When the oracle of identifiers never repeats itself, "New Chat"
    in a state a run of the script reaches gives the chat an identifier
    that differs from the one that was active and from the one of every
    archive entry. *)
Theorem reachable_new_chat_id (E : Env) (evs : list Event) :
  (forall a b, uuid4 E a = uuid4 E b -> a = b) ->
  let w := run E evs (init E) in
  let w' := step E w ClickNewChat in
  chat_id w' <> chat_id w
  /\ chat_history w' = chat_history w
  /\ Forall (fun c => id c <> chat_id w') (chat_history w').
Proof.
  intros Hinj w w'.
  destruct (inv_run E evs (init E) (inv_init E)) as (_ & _ & _ & [Hid Hh]).
  fold w in Hid, Hh. unfold w'. rewrite step_eq, reset_chat_eq.
  cbn zeta. cbn [final]. simpl. split_and!; [|done|].
  - destruct Hid as (k & Hk & ->). intros Heq%Hinj. lia.
  - eapply Forall_impl; [exact Hh|]. intros c (k & Hk & ->) Heq%Hinj. lia.
Qed.

Lemma step_archive E w ev :
  chat_history (step E w ev) = chat_history w
  \/ (is_save ev = true
      /\ exists c, chat_history (step E w ev) = c :: chat_history w).
Proof.
  rewrite step_eq; destruct ev as [s| | | |key].
  - by left.
  - left. by destruct (send_message_outside E w) as (-> & _).
  - by left.
  - destruct (save_chat_final w) as [->|[_ ->]]; [by left|].
    right. split; [done|]. by eexists.
  - left. by destruct (select_chat_final key w) as [->|(c & _ & _ & ->)].
Qed.

Lemma step_grows E w ev l :
  exists added, transcript (step E w ev) l = transcript w l ++ added.
Proof.
  rewrite step_eq. destruct ev as [s| | | |key].
  - exists []. by rewrite List.app_nil_r.
  - apply send_message_grows.
  - rewrite reset_chat_eq. cbn zeta. cbn [final]. unfold transcript. simpl.
    destruct (decide (fresh (dom (heap w)) = l)) as [<-|Hl].
    + exists []. by rewrite lookup_insert_eq, fresh_loc_unused.
    + exists []. by rewrite lookup_insert_ne, List.app_nil_r.
  - destruct (save_chat_final w) as [->|[_ ->]].
    + exists []. by rewrite List.app_nil_r.
    + unfold archived, transcript. simpl.
      destruct (decide (fresh (dom (heap w)) = l)) as [<-|Hl].
      * eexists. by rewrite lookup_insert_eq, fresh_loc_unused.
      * exists []. by rewrite lookup_insert_ne, List.app_nil_r.
  - exists []. rewrite List.app_nil_r.
    by destruct (select_chat_final key w) as [->|(c & _ & _ & ->)].
Qed.

(** X19. No event removes or reorders an archive entry or changes its
    identifier, its title or the list object it refers to: after any run
    from any state the archive is the old one with new entries in front, at
    most one per "Save Chat".  What an entry reads can still change, in one
    way only: every list object holds after the run what it held before,
    followed by the messages appended since. *)
Theorem archive_only_grows (E : Env) (evs : list Event) (w : World) :
  (exists new,
      chat_history (run E evs w) = new ++ chat_history w
      /\ (length new <= length (List.filter is_save evs))%nat)
  /\ Forall (fun c => exists added,
                 transcript (run E evs w) (messages c)
                 = transcript w (messages c) ++ added)
            (chat_history w).
Proof.
  split.
  - revert w. induction evs as [|ev evs IH]; intros w.
    + exists []. split; [done|simpl; lia].
    + cbn [run fold_left]. destruct (IH (step E w ev)) as (new & Hn & Hlen).
      fold (run E evs (step E w ev)) in Hn.
      destruct (step_archive E w ev) as [Heq|[Hs [c Heq]]]; rewrite Heq in Hn.
      * exists new. split; [done|]. simpl. destruct (is_save ev); simpl; lia.
      * exists (new ++ [c]). split; [by rewrite <- List.app_assoc|].
        simpl. rewrite Hs, length_app. simpl. lia.
  - apply Forall_forall. intros c _. generalize (messages c). clear c. intros l.
    revert w. induction evs as [|ev evs IH]; intros w.
    + exists []. by rewrite List.app_nil_r.
    + change (run E (ev :: evs) w) with (run E evs (step E w ev)).
      destruct (IH (step E w ev)) as [a2 H2].
      destruct (step_grows E w ev l) as [a1 H1].
      exists (a1 ++ a2). by rewrite H2, H1, List.app_assoc.
Qed.

End ScriptFacts.

(** ** More runs on concrete inputs *)
Module MoreExamples.
Import PyStr Spec PyStrFacts BankBot States Script Inputs MoreInputs.
Import ClassifierFacts TurnFacts TurnMore StoreFacts StoreMore Invariant.
Import TextFacts ScriptFacts.

Lemma classify_embedded_witness :
  occurs_ci "LOAN" "I don't want a loan"
  /\ classify "LOAN" <> OffTopic
  /\ classify "I don't want a loan" <> OffTopic
  /\ occurs_ci "hi" "Something"
  /\ classify "hi" = Greeting
  /\ classify "Something" = Greeting.
Proof.
  assert (occurs_ci "LOAN" "I don't want a loan") as H1
    by (by exists "I don't want a ", "loan", "").
  assert (occurs_ci "hi" "Something") as H2 by (by exists "Somet", "hi", "ng").
  assert (classify "LOAN" <> OffTopic) as H3 by done.
  split; [exact H1|]. split; [exact H3|].
  split; [exact (proj2 (classify_embedded "LOAN" "I don't want a loan" H1) H3)|].
  split; [exact H2|]. split; [reflexivity|].
  exact (proj1 (classify_embedded "hi" "Something" H2) eq_refl).
Defined.

Lemma cleanup_without_fragment_witness :
  (forall p, p ∈ blocked_phrases -> ~ occurs p "  Your balance is $500. ")
  /\ cleanup "  Your balance is $500. " = "Your balance is $500.".
Proof.
  assert (forall p, p ∈ blocked_phrases -> ~ occurs p "  Your balance is $500. ")
    as H.
  { intros p Hp. apply not_contains_occurs.
    unfold blocked_phrases in Hp.
    repeat (apply elem_of_cons in Hp as [->|Hp]; [done|]).
    by apply not_elem_of_nil in Hp. }
  split; [done|].
  exact (cleanup_without_fragment "  Your balance is $500. " H).
Defined.

Lemma send_message_offline_witness :
  classify (strip (user_input (typed " Hello " w_start))) <> BankingRelated
  /\ returned (send_message E_down (typed " Hello " w_start)) = true
  /\ posted (final (send_message E_down (typed " Hello " w_start))) = [].
Proof.
  assert (classify (strip (user_input (typed " Hello " w_start))) <> BankingRelated)
    as H by done.
  split; [done|]. exact (send_message_offline E_down (typed " Hello " w_start) H).
Defined.

Lemma send_message_twice_witness :
  returned (send_message E_echo w_balance) = true
  /\ send_message E_echo (final (send_message E_echo w_balance))
     = Returned () (final (send_message E_echo w_balance)).
Proof.
  split; [reflexivity|]. exact (send_message_twice E_echo w_balance eq_refl).
Defined.

Lemma send_message_retry_witness :
  send_message E_down w_balance = Raised Timeout (final (send_message E_down w_balance))
  /\ user_input (final (send_message E_down w_balance)) = "  my balance "
  /\ exists added,
      transcript (final (send_message E_down (final (send_message E_down w_balance))))
                 0%nat
      = [] ++ [m_balance;
               {| role := user; content := "my balance"; time := "10:01" |}]
           ++ added.
Proof.
  split; [reflexivity|].
  exact (send_message_retry E_down w_balance Timeout
           (final (send_message E_down w_balance)) eq_refl).
Defined.

Lemma wf_w_hello : wf w_hello.
Proof. apply wf_send_message, wf_set_user_input, wf_init. Qed.

Lemma reset_chat_fresh_witness :
  wf w_saved
  /\ transcript (final (reset_chat E_down w_saved))
                (current_chat (final (reset_chat E_down w_saved))) = []
  /\ chat_id (final (reset_chat E_down w_saved)) = "chat-1"
  /\ current_chat (final (reset_chat E_down w_saved)) <> current_chat w_saved.
Proof.
  assert (wf w_saved) as H by apply wf_save_chat, wf_w_hello.
  split; [done|].
  pose proof (reset_chat_fresh E_down w_saved H) as R. cbv zeta in R.
  split; [exact (proj1 (proj2 R))|].
  split; [exact (proj1 (proj2 (proj2 R)))|].
  exact (proj1 (proj2 (proj2 (proj2 (proj2 (proj2 R)))))).
Defined.

Lemma save_reset_select_witness :
  transcript w_hello (current_chat w_hello) <> []
  /\ (forall c, c ∈ chat_history w_hello -> id c <> chat_id w_hello)
  /\ chat_id (final (select_chat "chat-0" (final (reset_chat E_down w_saved))))
     = "chat-0"
  /\ transcript (final (select_chat "chat-0" (final (reset_chat E_down w_saved))))
       (current_chat (final (select_chat "chat-0" (final (reset_chat E_down w_saved)))))
     = transcript w_hello (current_chat w_hello).
Proof.
  assert (transcript w_hello (current_chat w_hello) <> []) as Hne by done.
  assert (forall c, c ∈ chat_history w_hello -> id c <> chat_id w_hello) as Hid.
  { intros c Hc. change (chat_history w_hello) with (@nil Chat) in Hc.
    by apply not_elem_of_nil in Hc. }
  split; [done|]. split; [done|].
  pose proof (save_reset_select E_down w_hello Hne Hid) as R. cbv zeta in R.
  split; [exact (proj1 R)|exact (proj1 (proj2 R))].
Defined.

Lemma turn_after_save_witness :
  wf w_hello
  /\ transcript w_hello (current_chat w_hello) <> []
  /\ exists c,
      chat_history (final (send_message E_down (set_user_input "my balance" w_saved)))
      = c :: chat_history w_hello
      /\ id c = chat_id w_hello
      /\ messages c
         <> current_chat (final (send_message E_down
                                   (set_user_input "my balance" w_saved)))
      /\ transcript (final (send_message E_down (set_user_input "my balance" w_saved)))
                    (messages c)
         = transcript w_hello (current_chat w_hello).
Proof.
  assert (transcript w_hello (current_chat w_hello) <> []) as Hne by done.
  split; [apply wf_w_hello|]. split; [done|].
  exact (turn_after_save E_down w_hello "my balance" wf_w_hello Hne).
Defined.

Lemma button_drawn_front c chats : button_drawn (c :: chats) c.
Proof. exists [], chats. split; [done|]. apply NoDup_singleton. Qed.

Lemma select_chat_loads_witness :
  button_drawn (chat_history w_saved_twice)
    {| id := "chat-0"; title := "Hello"; messages := 2%nat |}
  /\ chat_id (final (select_chat "chat-0" w_saved_twice)) = "chat-0"
  /\ current_chat (final (select_chat "chat-0" w_saved_twice)) = 2%nat.
Proof.
  assert (button_drawn (chat_history w_saved_twice)
            {| id := "chat-0"; title := "Hello"; messages := 2%nat |}) as H
    by apply button_drawn_front.
  split; [done|].
  pose proof (select_chat_loads w_saved_twice _ H) as R. cbv zeta in R.
  split; [exact (proj1 R)|exact (proj1 (proj2 R))].
Defined.

Lemma tally_inj a b : tally a = tally b -> a = b.
Proof.
  revert b. induction a as [|a IH]; intros [|b] H; try done.
  injection H as H. by rewrite (IH b H).
Qed.

Lemma uuid4_tally_inj a b : uuid4 E_tally a = uuid4 E_tally b -> a = b.
Proof. intros H. apply tally_inj. by simplify_eq/=. Qed.

Lemma reachable_new_chat_id_witness :
  (forall a b, uuid4 E_tally a = uuid4 E_tally b -> a = b)
  /\ chat_id (step E_tally (run E_tally evs_session (init E_tally)) ClickNewChat)
     <> chat_id (run E_tally evs_session (init E_tally))
  /\ Forall (fun c => id c <> chat_id (step E_tally
                        (run E_tally evs_session (init E_tally)) ClickNewChat))
       (chat_history (step E_tally (run E_tally evs_session (init E_tally))
                           ClickNewChat)).
Proof.
  split; [exact uuid4_tally_inj|].
  pose proof (reachable_new_chat_id E_tally evs_session uuid4_tally_inj) as R.
  cbv zeta in R. split; [exact (proj1 R)|exact (proj2 (proj2 R))].
Defined.

Lemma save_chat_twice_witness :
  transcript w_hello (current_chat w_hello) <> []
  /\ exists c1 c2,
      chat_history (final (save_chat w_saved)) = c2 :: c1 :: chat_history w_hello
      /\ id c1 = "chat-0" /\ id c2 = "chat-0"
      /\ title c1 = title c2
      /\ messages c1 <> messages c2
      /\ transcript (final (save_chat w_saved)) (messages c1)
         = transcript w_hello (current_chat w_hello)
      /\ transcript (final (save_chat w_saved)) (messages c2)
         = transcript w_hello (current_chat w_hello).
Proof.
  assert (transcript w_hello (current_chat w_hello) <> []) as Hne by done.
  split; [done|]. exact (save_chat_twice w_hello Hne).
Defined.

Lemma turn_after_load_witness :
  button_drawn (chat_history w_saved)
    {| id := "chat-0"; title := "Hello"; messages := 1%nat |}
  /\ strip " a loan? " <> ""
  /\ exists c' added,
      c' ∈ chat_history w_saved /\ id c' = "chat-0"
      /\ c' = {| id := "chat-0"; title := "Hello"; messages := 1%nat |}
      /\ chat_history (final (send_message E_down
             (set_user_input " a loan? " (final (select_chat "chat-0" w_saved)))))
         = chat_history w_saved
      /\ current_chat (final (send_message E_down
             (set_user_input " a loan? " (final (select_chat "chat-0" w_saved)))))
         = messages c'
      /\ transcript (final (send_message E_down
             (set_user_input " a loan? " (final (select_chat "chat-0" w_saved)))))
           (messages c')
         = transcript w_saved (messages c')
           ++ {| role := user; content := "a loan?"; time := "10:02" |} :: added.
Proof.
  assert (button_drawn (chat_history w_saved)
            {| id := "chat-0"; title := "Hello"; messages := 1%nat |}) as H
    by apply button_drawn_front.
  assert (strip " a loan? " <> "") as Hs by done.
  split; [done|]. split; [done|].
  exact (turn_after_load E_down w_saved _ " a loan? " H Hs).
Defined.

End MoreExamples.
